(** * Hybrid retrieval and query pipeline of the PDF question-answering backend

    A shallow embedding of the backend's query path (the Express server
    module): running metrics ([RAGMetrics]), the lexical evaluator
    ([RAGEvaluator]), query expansion ([generateMultipleQueries]), the
    cache key of the [/query] route, the two scoring functions
    ([cosineSimilarity], [calculateBM25Score]), the deduplication /
    ranking step and the [/query] handler itself.

    Conventions.
    - JavaScript numbers are IEEE 754 doubles.  [Float64] gives their
      arithmetic and [Scoring64] is [cosineSimilarity] as the code computes
      it.  The running means, the BM25 score and the ranking are stated over
      exact arithmetic instead (rationals [Q] where the code only adds,
      multiplies and divides, reals [R] where it takes square roots or
      logarithms): every statement made there is a statement about the
      idealised computation and says so.  A quotient of two sizes that
      JavaScript reports as [NaN] or [Infinity] is modelled explicitly
      ([jsnum]).
    - JavaScript strings are modelled by [string], one character per UTF-16
      code unit; this covers the text whose code units are below 256.
      [Buffer.from] is modelled on arbitrary sequences of code units
      ([CacheKey.utf8]).
    - Calls into third-party packages and remote services are parameters of
      the sections that use them.  A package call that raises is [None]; a
      call that raises with a message the route reports carries the message
      ([outcome]).  The request schema is such a parameter as well.
    - Writes to the log are not modelled. *)

From stdpp Require Import base option list gmap strings.
From Stdlib Require Import ZArith QArith Qfield Reals Lra Lia Ascii String List.
From Stdlib Require Import DecimalString Sorted Permutation.
From Stdlib Require DecimalPos DecimalZ.
From Stdlib Require Import SpecFloat.
Import ListNotations.

Local Open Scope string_scope.
Local Open Scope list_scope.

(** ** Performance monitoring: [class RAGMetrics] *)

Module Metrics.

Local Open Scope Q_scope.

(** [this.metrics] *)
Record metrics := {
  totalQueries : Z;
  averageResponseTime : Q;
  cacheHitRate : Q;
  errorRate : Q;
  averageRetrievalAccuracy : Q
}.

(** [constructor()] *)
Definition initial : metrics :=
  {| totalQueries := 0; averageResponseTime := 0; cacheHitRate := 0;
     errorRate := 0; averageRetrievalAccuracy := 0 |}.

(** [recordQuery(responseTime, cacheHit, error = false)].  The counter is
    incremented first and every later expression reads the new value. *)
Definition recordQuery (responseTime : Q) (cacheHit error : bool)
    (m : metrics) : metrics :=
  let n := (totalQueries m + 1)%Z in
  {| totalQueries := n;
     averageResponseTime :=
       (averageResponseTime m * (inject_Z n - 1) + responseTime) / inject_Z n;
     cacheHitRate :=
       if cacheHit
       then (cacheHitRate m * (inject_Z n - 1) + 1) / inject_Z n
       else (cacheHitRate m * (inject_Z n - 1)) / inject_Z n;
     errorRate :=
       if error
       then (errorRate m * (inject_Z n - 1) + 1) / inject_Z n
       else (errorRate m * (inject_Z n - 1)) / inject_Z n;
     averageRetrievalAccuracy := averageRetrievalAccuracy m |}.

(** One call of [recordQuery], as the route handlers issue it. *)
Record call := { responseTime : Q; cacheHit : bool; error : bool }.

Definition record (m : metrics) (c : call) : metrics :=
  recordQuery (responseTime c) (cacheHit c) (error c) m.

(** The metrics object after a sequence of calls, oldest first. *)
Definition after (calls : list call) : metrics :=
  fold_left record calls initial.

Definition total (ts : list Q) : Q := fold_right Qplus 0 ts.

Definition count (p : call -> bool) (calls : list call) : Z :=
  Z.of_nat (List.length (List.filter p calls)).

(** The incremental form of the mean update. *)
Definition incrementalMean (oldMean value : Q) (n : Z) : Q :=
  oldMean + (value - oldMean) / inject_Z n.

End Metrics.

(** ** String primitives of the host language

    The few [String.prototype] methods the pipeline calls, on strings whose
    code units are below 256. *)

Module JsString.

Definition isWhiteSpace (c : ascii) : bool :=
  let n := nat_of_ascii c in
  (Nat.leb 9 n && Nat.leb n 13) || Nat.eqb n 32 || Nat.eqb n 160.

Definition isDigit (c : ascii) : bool :=
  let n := nat_of_ascii c in Nat.leb 48 n && Nat.leb n 57.

Definition isUpper (c : ascii) : bool :=
  let n := nat_of_ascii c in Nat.leb 65 n && Nat.leb n 90.

Definition isWordChar (c : ascii) : bool :=
  let n := nat_of_ascii c in
  isDigit c || isUpper c || (Nat.leb 97 n && Nat.leb n 122) || Nat.eqb n 95.

Fixpoint mapChars (f : ascii -> ascii) (s : string) : string :=
  match s with
  | EmptyString => EmptyString
  | String c s' => String (f c) (mapChars f s')
  end.

(** The code units below 256 that [toLowerCase] changes: [A-Z] and the
    accented capitals from 192 to 222, the multiplication sign (215)
    excepted. *)
Definition hasLowerCase (c : ascii) : bool :=
  let n := nat_of_ascii c in
  isUpper c || (Nat.leb 192 n && Nat.leb n 222 && negb (Nat.eqb n 215)).

(** [s.toLowerCase()] *)
Definition toLowerCase (s : string) : string :=
  mapChars (fun c => if hasLowerCase c then ascii_of_nat (nat_of_ascii c + 32) else c) s.

Fixpoint dropWhile (p : ascii -> bool) (s : string) : string :=
  match s with
  | EmptyString => EmptyString
  | String c s' => if p c then dropWhile p s' else s
  end.

Fixpoint rev (s : string) : string :=
  match s with
  | EmptyString => EmptyString
  | String c s' => rev s' ++ String c EmptyString
  end.

(** [s.trim()] *)
Definition trim (s : string) : string :=
  rev (dropWhile isWhiteSpace (rev (dropWhile isWhiteSpace s))).

(** [s.split(sep)] for a one-character separator: the pieces between the
    separators, empty pieces included; the empty string splits into one
    empty piece. *)
Fixpoint split (sep : ascii) (s : string) : list string :=
  match s with
  | EmptyString => [EmptyString]
  | String c s' =>
      if Ascii.eqb c sep then EmptyString :: split sep s'
      else match split sep s' with
           | [] => [String c EmptyString]
           | w :: ws => String c w :: ws
           end
  end.

(** [parts.join(sep)] *)
Definition join (sep : string) (parts : list string) : string :=
  String.concat sep parts.

(** [s.includes(t)] *)
Fixpoint includes (s t : string) : bool :=
  String.prefix t s ||
  match s with
  | EmptyString => false
  | String _ s' => includes s' t
  end.

(** [s.substring(0, n)] *)
Definition substring0 (n : nat) (s : string) : string := String.substring 0 n s.

(** Truthiness of a string: only the empty string is falsy. *)
Definition truthy (s : string) : bool :=
  match s with EmptyString => false | _ => true end.

(** Maximal runs of characters satisfying [p]; used for the concrete
    tokenisers the examples run on. *)
Fixpoint runs (p : ascii -> bool) (cur : string) (s : string) : list string :=
  match s with
  | EmptyString => if truthy cur then [rev cur] else []
  | String c s' =>
      if p c then runs p (String c cur) s'
      else if truthy cur then rev cur :: runs p EmptyString s'
      else runs p EmptyString s'
  end.

Definition words (s : string) : list string :=
  runs (fun c => negb (isWhiteSpace c)) EmptyString s.

Definition wordTokens (s : string) : list string := runs isWordChar EmptyString s.

End JsString.

(** ** Data model *)

(** A chunk as the [/query] route reads it from the store. *)
Record Chunk := {
  id : string;
  content : string;
  embedding : list R;
  docId : string;
  chunkIndex : Z
}.

(** Quotient of two sizes as a JavaScript number: [0 / 0] is [NaN] and
    [n / 0] is [Infinity]; finite quotients are kept in lowest terms. *)
Inductive jsnum := Num (q : Q) | NaN | Infinity.

Definition divSizes (a b : nat) : jsnum :=
  match b with
  | O => match a with O => NaN | S _ => Infinity end
  | S _ => Num (Qred (Z.of_nat a # Pos.of_nat b))
  end.

(** [x > c] for a finite constant [c]: false on [NaN]. *)
Definition gtb (x : jsnum) (c : Q) : bool :=
  match x with
  | Num q => negb (Qle_bool q c)
  | NaN => false
  | Infinity => true
  end.

(** A call that returns or raises with a message. *)
Inductive outcome (A : Type) :=
| Returned (a : A)
| Raised (message : string).
Arguments Returned {A} a.
Arguments Raised {A} message.

(** ** Answer-quality evaluation: [class RAGEvaluator] *)

Module Evaluator.

Record Evaluation := {
  answerRelevance : jsnum;
  contextPrecision : jsnum;
  faithfulness : jsnum;
  timestamp : Z
}.

(** What the expression [natural.SentenceTokenizer.tokenize] evaluates to.
    The package defines [tokenize] on the instances of its tokenizer
    classes (the scoring code builds one with [new natural.WordTokenizer()]
    before it calls [tokenize]); the class itself has no property of that
    name, so the expression is [undefined], here [None], and calling it
    raises. *)
Definition SentenceTokenizer_tokenize : option (string -> list string) := None.

Definition notAFunction : string :=
  "natural.SentenceTokenizer.tokenize is not a function".

Section WithTerms.

(** [compromise(text).terms().out('array')] *)
Variable terms : string -> list string.

(** [calculateSemanticSimilarity(text1, text2)] *)
Definition calculateSemanticSimilarity (text1 text2 : string) : jsnum :=
  let terms1 : gset string := list_to_set (terms text1) in
  let terms2 : gset string := list_to_set (terms text2) in
  let intersection : gset string := base.filter (fun term => term ∈ terms2) terms1 in
  let union : gset string := terms1 ∪ terms2 in
  divSizes (size intersection) (size union).

(** [calculateAnswerRelevance(question, answer)] *)
Definition calculateAnswerRelevance (question answer : string) : jsnum :=
  calculateSemanticSimilarity question answer.

(** [calculateContextPrecision(retrievedChunks, relevantChunks)] *)
Definition calculateContextPrecision (retrievedChunks relevantChunks : list Chunk)
    : jsnum :=
  match retrievedChunks with
  | [] => Num 0
  | _ =>
      let relevant :=
        List.length
          (List.filter
             (fun chunk =>
                existsb
                  (fun rel =>
                     gtb (calculateSemanticSimilarity (content chunk) (content rel))
                         (1 # 2))
                  relevantChunks)
             retrievedChunks) in
      divSizes relevant (List.length retrievedChunks)
  end.

(** [calculateFaithfulness(answer, context)] *)
Definition calculateFaithfulness (answer context : string) : outcome jsnum :=
  match SentenceTokenizer_tokenize with
  | None => Raised notAFunction
  | Some tokenize =>
      let answerSentences := tokenize answer in
      match answerSentences with
      | [] => Returned (Num 1)
      | _ =>
          let faithfulSentences :=
            List.length
              (List.filter
                 (fun sentence =>
                    gtb (calculateSemanticSimilarity sentence context) (3 # 10))
                 answerSentences) in
          Returned (divSizes faithfulSentences (List.length answerSentences))
      end
  end.

(** [evaluateRAGResponse(question, answer, retrievedChunks, relevantChunks = [])];
    an omitted fourth argument is [None], and [now] is the clock reading
    that [new Date().toISOString()] formats.  The fields of the object are
    computed in the order they are written, so a field that raises leaves
    the later ones uncomputed and the promise rejected. *)
Definition evaluateRAGResponse (question answer : string)
    (retrievedChunks : list Chunk) (relevantChunks : option (list Chunk))
    (now : Z) : outcome Evaluation :=
  let relevantChunks := default [] relevantChunks in
  let context := JsString.join (String (ascii_of_nat 10) EmptyString)
                   (List.map content retrievedChunks) in
  let answerRelevance := calculateAnswerRelevance question answer in
  let contextPrecision := calculateContextPrecision retrievedChunks relevantChunks in
  match calculateFaithfulness answer context with
  | Returned faithfulness =>
      Returned {| answerRelevance := answerRelevance;
                  contextPrecision := contextPrecision;
                  faithfulness := faithfulness;
                  timestamp := now |}
  | Raised message => Raised message
  end.

End WithTerms.

End Evaluator.

(** ** Double-precision arithmetic

    The binary64 operations of the host language, rounding to nearest with
    ties to even. *)

Module Float64.

Definition double : Type := spec_float.

Definition prec : Z := 53.
Definition emax : Z := 1024.

Definition add : double -> double -> double := SFadd prec emax.
Definition sub : double -> double -> double := SFsub prec emax.
Definition mul : double -> double -> double := SFmul prec emax.
Definition div : double -> double -> double := SFdiv prec emax.
Definition sqrt : double -> double := SFsqrt prec emax.

(** [x === y] on numbers: false on [NaN], true on the two zeros. *)
Definition eqb : double -> double -> bool := SFeqb.
Definition ltb : double -> double -> bool := SFltb.
Definition leb : double -> double -> bool := SFleb.

(** The literal [0] and the doubles of the integers. *)
Definition zero : double := S754_zero false.
Definition ofZ (n : Z) : double := binary_normalize prec emax n 0 false.
Definition one : double := ofZ 1.

(** [m * 2 ^ e], rounded; the decimal literals of the examples are given
    this way. *)
Definition scaled (m e : Z) : double := binary_normalize prec emax m e false.


End Float64.

(** ** [cosineSimilarity] as the code computes it, in doubles *)

Module Scoring64.
Import Float64.

Section WithLibraries.

(** [cosine(vec1, vec2)], the binding destructured from the default export
    of the distance package; [None] when the call raises. *)
Variable cosine : list double -> list double -> option double.

(** [vec1.reduce((sum, val, i) => sum + val * vec2[i], 0)]; the two arrays
    have equal lengths where this is evaluated. *)
Definition dotProduct (vec1 vec2 : list double) : double :=
  fold_left (fun sum p => add sum (mul (fst p) (snd p))) (combine vec1 vec2) zero.

(** [vec.reduce((sum, val) => sum + val * val, 0)] *)
Definition sumSquares (vec : list double) : double :=
  fold_left (fun sum val => add sum (mul val val)) vec zero.

(** The [catch] branch of [cosineSimilarity]. *)
Definition manualCosine (vec1 vec2 : list double) : double :=
  let dot := dotProduct vec1 vec2 in
  let magnitude1 := sqrt (sumSquares vec1) in
  let magnitude2 := sqrt (sumSquares vec2) in
  if eqb magnitude1 zero || eqb magnitude2 zero then zero
  else div dot (mul magnitude1 magnitude2).

(** [cosineSimilarity(vec1, vec2)]; an absent ([null] / [undefined]) vector
    is [None]. *)
Definition cosineSimilarity (vec1 vec2 : option (list double)) : double :=
  match vec1, vec2 with
  | Some v1, Some v2 =>
      if negb (Nat.eqb (List.length v1) (List.length v2)) then zero
      else match cosine v1 v2 with
           | Some distance => sub one distance
           | None => manualCosine v1 v2
           end
  | _, _ => zero
  end.

End WithLibraries.

End Scoring64.

(** ** Scoring in exact arithmetic: [cosineSimilarity] and [calculateBM25Score]

    The same two functions with the reals in place of the doubles: what the
    code would compute without rounding, overflow and underflow. *)

Module Scoring.

Local Open Scope R_scope.

Section WithLibraries.

(** [cosine(vec1, vec2)], the binding destructured from the default export
    of the distance package; [None] when the call raises. *)
Variable cosine : list R -> list R -> option R.

(** [new natural.WordTokenizer().tokenize(text)] *)
Variable tokenize : string -> list string.

(** [vec1.reduce((sum, val, i) => sum + val * vec2[i], 0)]; the two arrays
    have equal lengths where this is evaluated. *)
Definition dotProduct (vec1 vec2 : list R) : R :=
  fold_left (fun sum p => sum + fst p * snd p) (combine vec1 vec2) 0.

(** [vec.reduce((sum, val) => sum + val * val, 0)] *)
Definition sumSquares (vec : list R) : R :=
  fold_left (fun sum val => sum + val * val) vec 0.

(** The [catch] branch of [cosineSimilarity]. *)
Definition manualCosine (vec1 vec2 : list R) : R :=
  let magnitude1 := sqrt (sumSquares vec1) in
  let magnitude2 := sqrt (sumSquares vec2) in
  if Req_dec_T magnitude1 0 then 0
  else if Req_dec_T magnitude2 0 then 0
  else dotProduct vec1 vec2 / (magnitude1 * magnitude2).

(** [cosineSimilarity(vec1, vec2)]; an absent ([null] / [undefined]) vector
    is [None]. *)
Definition cosineSimilarity (vec1 vec2 : option (list R)) : R :=
  match vec1, vec2 with
  | Some v1, Some v2 =>
      if negb (Nat.eqb (List.length v1) (List.length v2)) then 0
      else match cosine v1 v2 with
           | Some distance => 1 - distance
           | None => manualCosine v1 v2
           end
  | _, _ => 0
  end.

Definition k1 : R := 12 / 10.
Definition b : R := 75 / 100.

(** [docTokens.filter(token => token === term).length] *)
Definition termFreq (term : string) (docTokens : list string) : nat :=
  List.length (List.filter (fun token => String.eqb token term) docTokens).

(** [corpus.filter(doc => doc.toLowerCase().includes(term)).length] *)
Definition docFreq (term : string) (corpus : list string) : nat :=
  List.length
    (List.filter (fun doc => JsString.includes (JsString.toLowerCase doc) term) corpus).

(** [corpus.reduce((sum, doc) => sum + doc.length, 0) / corpus.length] *)
Definition avgDocLength (corpus : list string) : R :=
  fold_left (fun sum doc => sum + INR (String.length doc)) corpus 0
  / INR (List.length corpus).

Definition idf (corpus : list string) (df : nat) : R :=
  ln ((INR (List.length corpus) - INR df + 5 / 10) / (INR df + 5 / 10)).

Definition tf (freq docLength : nat) (avg : R) : R :=
  (INR freq * (k1 + 1)) / (INR freq + k1 * (1 - b + b * (INR docLength / avg))).

(** What one query term adds to [score] in the [forEach] body. *)
Definition contribution (term : string) (docTokens : list string)
    (corpus : list string) : R :=
  if Nat.ltb 0 (docFreq term corpus)
  then idf corpus (docFreq term corpus)
       * tf (termFreq term docTokens) (List.length docTokens) (avgDocLength corpus)
  else 0.

(** [calculateBM25Score(query, document, corpus)] *)
Definition calculateBM25Score (query document : string) (corpus : list string) : R :=
  let queryTokens := tokenize (JsString.toLowerCase query) in
  let docTokens := tokenize (JsString.toLowerCase document) in
  fold_left
    (fun score term =>
       if Nat.ltb 0 (docFreq term corpus)
       then score
            + idf corpus (docFreq term corpus)
              * tf (termFreq term docTokens) (List.length docTokens)
                   (avgDocLength corpus)
       else score)
    queryTokens 0.

(** [(0.7 * vectorScore) + (0.3 * bm25Score)] *)
Definition hybrid (vectorScore bm25Score : R) : R :=
  (7 / 10 * vectorScore) + (3 / 10 * bm25Score).

End WithLibraries.

End Scoring.

(** ** Deduplication and ranking in the [/query] route *)

Module Ranker.

Local Open Scope R_scope.

(** An element of [hybridResults]. *)
Record HybridResult := {
  chunk : Chunk;
  vectorScore : R;
  bm25Score : R;
  hybridScore : R;
  queryVariation : string
}.

(** [uniqueResults]: a [Map] keeps its keys in the order of their first
    insertion, and [set] on a present key replaces the value in place. *)
Definition ResultMap := list (string * HybridResult).

Fixpoint mapGet (key : string) (m : ResultMap) : option HybridResult :=
  match m with
  | [] => None
  | (k, v) :: rest => if String.eqb k key then Some v else mapGet key rest
  end.

Fixpoint mapSet (key : string) (value : HybridResult) (m : ResultMap) : ResultMap :=
  match m with
  | [] => [(key, value)]
  | (k, v) :: rest =>
      if String.eqb k key then (k, value) :: rest
      else (k, v) :: mapSet key value rest
  end.

Definition mapValues (m : ResultMap) : list HybridResult := List.map snd m.

(** The body of [hybridResults.forEach]. *)
Definition keepBest (uniqueResults : ResultMap) (result : HybridResult) : ResultMap :=
  let key := id (chunk result) in
  match mapGet key uniqueResults with
  | None => mapSet key result uniqueResults
  | Some kept =>
      if Rlt_dec (hybridScore kept) (hybridScore result)
      then mapSet key result uniqueResults
      else uniqueResults
  end.

Definition deduplicate (hybridResults : list HybridResult) : ResultMap :=
  fold_left keepBest hybridResults [].

(** [.sort((a, b) => b.hybridScore - a.hybridScore)]: the sort is stable, so
    the result is the one insertion from the right produces, each element
    going in front of the first one whose score is not strictly larger. *)
Fixpoint insertByScore (x : HybridResult) (l : list HybridResult) : list HybridResult :=
  match l with
  | [] => [x]
  | y :: rest =>
      if Rlt_dec (hybridScore x) (hybridScore y) then y :: insertByScore x rest
      else x :: y :: rest
  end.

Definition sortByScore (l : list HybridResult) : list HybridResult :=
  fold_right insertByScore [] l.

(** [l.slice(0, n)] for an integer [n]; a negative [n] counts from the end. *)
Definition slice0 {A} (n : Z) (l : list A) : list A :=
  if (n <? 0)%Z then firstn (Z.to_nat (Z.of_nat (List.length l) + n)) l
  else firstn (Z.to_nat n) l.

(** [topResults] *)
Definition rankResults (hybridResults : list HybridResult) (maxResults : Z)
    : list HybridResult :=
  slice0 maxResults (sortByScore (mapValues (deduplicate hybridResults))).

(** [r] is one of [candidates] and no candidate for the same chunk scores
    higher. *)
Definition bestFor (candidates : list HybridResult) (r : HybridResult) : Prop :=
  In r candidates /\
  forall c, In c candidates -> id (chunk c) = id (chunk r) ->
    hybridScore c <= hybridScore r.


(** The invariant of [uniqueResults] while [seen] has been processed. *)
Definition uniqueInvariant (seen : list HybridResult) (m : ResultMap) : Prop :=
  NoDup (List.map fst m) /\
  (forall c, In c seen -> In (id (chunk c)) (List.map fst m)) /\
  (forall k v, In (k, v) m -> id (chunk v) = k /\ bestFor seen v).

Section WithLibraries.

Variable cosine : list R -> list R -> option R.
Variable tokenize : string -> list string.

(** The body of the inner loop: one candidate per (variation, chunk). *)
Definition scoreChunk (corpus : list string) (queryVariation : string)
    (queryVector : option (list R)) (c : Chunk) : HybridResult :=
  let vectorScore := Scoring.cosineSimilarity cosine queryVector (Some (embedding c)) in
  let bm25Score := Scoring.calculateBM25Score tokenize queryVariation (content c) corpus in
  {| chunk := c;
     vectorScore := vectorScore;
     bm25Score := bm25Score;
     hybridScore := Scoring.hybrid vectorScore bm25Score;
     queryVariation := queryVariation |}.

(** [hybridResults] once the two loops have run, given each variation with
    the vector the embedding service returned for it. *)
Definition hybridRetrieval (embedded : list (string * option (list R)))
    (allChunks : list Chunk) : list HybridResult :=
  let corpus := List.map content allChunks in
  flat_map
    (fun qv => List.map (scoreChunk corpus (fst qv) (snd qv)) allChunks)
    embedded.

End WithLibraries.

End Ranker.

(** ** The cache key of the [/query] route *)

Module CacheKey.

(** The validated request: [const { question, includeMetadata, maxResults } = value]. *)
Record QueryRequest := {
  question : string;
  includeMetadata : bool;
  maxResults : Z
}.

(** The base64 alphabet and its padding character. *)
Definition alphabet : string :=
  "ABCDEFGHIJKLMNOPQRSTUVWXYZabcdefghijklmnopqrstuvwxyz0123456789+/".

Definition pad : ascii := "="%char.

Definition sextet (n : nat) : ascii :=
  match String.get n alphabet with
  | Some c => c
  | None => pad
  end.

(** [Buffer.from(text).toString('base64')]: three bytes give four
    sextets; a last group of one or two bytes is padded. *)
Fixpoint base64 (bytes : string) : string :=
  match bytes with
  | EmptyString => EmptyString
  | String x EmptyString =>
      let a := nat_of_ascii x in
      String (sextet (a / 4)) (String (sextet (a mod 4 * 16))
        (String pad (String pad EmptyString)))
  | String x (String y EmptyString) =>
      let a := nat_of_ascii x in
      let b := nat_of_ascii y in
      String (sextet (a / 4)) (String (sextet (a mod 4 * 16 + b / 16))
        (String (sextet (b mod 16 * 4)) (String pad EmptyString)))
  | String x (String y (String z rest)) =>
      let a := nat_of_ascii x in
      let b := nat_of_ascii y in
      let c := nat_of_ascii z in
      String (sextet (a / 4)) (String (sextet (a mod 4 * 16 + b / 16))
        (String (sextet (b mod 16 * 4 + c / 64)) (String (sextet (c mod 64))
          (base64 rest))))
  end.

(** UTF-16 code units and the two halves of a surrogate pair. *)
Definition isHighSurrogate (u : N) : bool := (55296 <=? u)%N && (u <=? 56319)%N.
Definition isLowSurrogate (u : N) : bool := (56320 <=? u)%N && (u <=? 57343)%N.

Definition byte (n : N) : string := String (ascii_of_N n) EmptyString.

(** The UTF-8 encoding of one code point. *)
Definition encodeCodePoint (c : N) : string :=
  if (c <? 128)%N then byte c
  else if (c <? 2048)%N then byte (192 + c / 64) ++ byte (128 + c mod 64)
  else if (c <? 65536)%N then
    byte (224 + c / 4096) ++ byte (128 + (c / 64) mod 64) ++ byte (128 + c mod 64)
  else
    byte (240 + c / 262144) ++ byte (128 + (c / 4096) mod 64)
    ++ byte (128 + (c / 64) mod 64) ++ byte (128 + c mod 64).

(** U+FFFD, which stands for a surrogate that has no partner. *)
Definition replacement : string := encodeCodePoint 65533.

(** [Buffer.from(text)]: the bytes of the UTF-8 encoding of [text], given
    as its code units.  A high surrogate followed by a low one is one code
    point; any other surrogate is replaced. *)
Fixpoint utf8 (units : list N) : string :=
  match units with
  | [] => EmptyString
  | u :: rest =>
      if isHighSurrogate u then
        match rest with
        | l :: rest' =>
            if isLowSurrogate l
            then encodeCodePoint (65536 + (u - 55296) * 1024 + (l - 56320)) ++ utf8 rest'
            else replacement ++ utf8 rest
        | [] => replacement
        end
      else if isLowSurrogate u then replacement ++ utf8 rest
      else encodeCodePoint u ++ utf8 rest
  end.

(** The code units of a string of the model. *)
Definition codeUnits (text : string) : list N :=
  List.map N_of_ascii (list_ascii_of_string text).

(** [`query_${Buffer.from(question).toString('base64')}`], on the code
    units of the question and on a question of the model. *)
Definition cacheKeyOf (units : list N) : string := "query_" ++ base64 (utf8 units).

Definition cacheKey (question : string) : string := cacheKeyOf (codeUnits question).

End CacheKey.

(** ** The [/query] route and its collaborators *)

Module Server.

(** What [generationModel.generateContent] resolves to: [response.text()],
    [None] when the call raises (both callers catch it), and
    [response.candidates[0].content.parts[0].text], which the route reads
    outside any handler of its own. *)
Record GenerationResponse := {
  text : option string;
  candidateText : outcome string
}.

(** Calls that leave the process. *)
Inductive Event :=
| GenerateContent (prompt : string)
| EmbedContent (input : string)
| RunCypher (statement : string)
| CloseSession.

Definition isGenerationCall (e : Event) : bool :=
  match e with GenerateContent _ => true | _ => false end.

(** An element of [sources]. *)
Record Source := {
  sourceContent : string;
  sourceVectorScore : R;
  sourceBm25Score : R;
  sourceHybridScore : R;
  sourceDocId : string;
  sourceChunkIndex : Z;
  metadata : option Chunk
}.

(** The JSON object a successful request answers with; a field the route
    does not set is [None] (or [false] for [cached]). *)
Record QueryResult := {
  answer : string;
  sources : list Source;
  queryVariations : list string;
  retrievalMethod : option string;
  evaluation : option Evaluator.Evaluation;
  responseTime : Z;
  timestamp : option Z;
  cached : bool
}.

Inductive Response :=
| Json (body : QueryResult)
| BadRequest (error : string)
| ServerError (error details : string) (responseTime : Z).

(** Process state: the result cache (value and expiry instant per key), the
    metrics object, the number of clock readings taken so far and the
    calls made so far. *)
Record State := {
  cache : gmap string (QueryResult * Z);
  metrics : Metrics.metrics;
  clockReads : nat;
  trace : list Event
}.

Definition M (A : Type) : Type := State -> outcome A * State.

Definition ret {A} (a : A) : M A := fun st => (Returned a, st).

Definition bind {A B} (m : M A) (k : A -> M B) : M B :=
  fun st =>
    match m st with
    | (Returned a, st') => k a st'
    | (Raised e, st') => (Raised e, st')
    end.

Definition raise {A} (message : string) : M A := fun st => (Raised message, st).

(** [try { m } catch (err) { handler(err) }] *)
Definition tryCatch {A} (m : M A) (handler : string -> M A) : M A :=
  fun st =>
    match m st with
    | (Returned a, st') => (Returned a, st')
    | (Raised e, st') => handler e st'
    end.

(** [try { m } finally { cleanup }] for a cleanup that does not raise. *)
Definition finally {A} (m : M A) (cleanup : State -> State) : M A :=
  fun st => let (r, st') := m st in (r, cleanup st').

Notation "x <- m ;; k" := (bind m (fun x => k))
  (at level 62, m at next level, right associativity).
Notation "m ;;; k" := (bind m (fun _ => k))
  (at level 62, right associativity).

Definition emit (e : Event) : M unit :=
  fun st =>
    (Returned tt,
     {| cache := cache st; metrics := metrics st; clockReads := clockReads st;
        trace := trace st ++ [e] |}).

Definition fromOutcome {A} (r : outcome A) : M A := fun st => (r, st).

Definition newline : string := String (ascii_of_nat 10) EmptyString.
Definition doubleQuote : string := String (ascii_of_nat 34) EmptyString.

(** [`${n}`] for an integer *)
Definition numberToString (n : Z) : string := NilZero.string_of_int (Z.to_int n).

(** The prompt of [generateMultipleQueries]. *)
Definition expansionPrompt (originalQuery : string) (numQueries : Z) : string :=
  "Generate " ++ numberToString numQueries
  ++ " different ways to ask the following question. Each query should capture different aspects or perspectives of the original question:"
  ++ newline ++ newline
  ++ "Original Question: " ++ doubleQuote ++ originalQuery ++ doubleQuote
  ++ newline ++ newline
  ++ "Please provide " ++ numberToString numQueries
  ++ " alternative queries, each on a new line:".

(** [line.replace(/^\d+\.\s*/, '')] *)
Definition stripEnumeration (line : string) : string :=
  let afterDigits := JsString.dropWhile JsString.isDigit line in
  if Nat.ltb (String.length afterDigits) (String.length line) then
    match afterDigits with
    | String c rest =>
        if Ascii.eqb c "."%char then JsString.dropWhile JsString.isWhiteSpace rest
        else line
    | EmptyString => line
    end
  else line.

(** The [split / filter / map / slice] chain of [generateMultipleQueries]. *)
Definition parseQueries (generatedText : string) (numQueries : Z) : list string :=
  Ranker.slice0 numQueries
    (List.map (fun line => JsString.trim (stripEnumeration line))
       (List.filter (fun line => JsString.truthy (JsString.trim line))
          (JsString.split (ascii_of_nat 10) generatedText))).

(** The prompt of the answer-generation call. *)
Definition answerPrompt (context question : string) : string :=
  "Context: " ++ context ++ newline ++ newline ++ "Question: " ++ question
  ++ newline ++ newline
  ++ "Please provide a comprehensive answer based on the context above. If the context doesn't contain enough information to answer the question, please say so.".

Definition chunkQuery : string :=
  "MATCH (c:Chunk) WHERE c.embedding IS NOT NULL RETURN c".

Definition noDocumentsAnswer : string :=
  "No documents have been uploaded yet. Please upload a PDF first.".

(** An entry is served until its expiry instant has passed. *)
Definition lookupFresh (now : Z) (key : string) (c : gmap string (QueryResult * Z))
    : option QueryResult :=
  match c !! key with
  | Some (value, expiresAt) => if (expiresAt <? now)%Z then None else Some value
  | None => None
  end.

(** One element of [finalResult.sources]. *)
Definition toSource (includeMetadata : bool) (item : Ranker.HybridResult) : Source :=
  {| sourceContent := JsString.substring0 200 (content (Ranker.chunk item)) ++ "...";
     sourceVectorScore := Ranker.vectorScore item;
     sourceBm25Score := Ranker.bm25Score item;
     sourceHybridScore := Ranker.hybridScore item;
     sourceDocId := docId (Ranker.chunk item);
     sourceChunkIndex := chunkIndex (Ranker.chunk item);
     metadata := if includeMetadata then Some (Ranker.chunk item) else None |}.

Section WithServices.

(** Third-party packages. *)
Variable cosine : list R -> list R -> option R.
Variable tokenize : string -> list string.
Variable terms : string -> list string.

(** The request body and [querySchema.validate(req.body)]: the message of
    the first error ([error.details[0].message]) or the validated value
    with its defaults filled in. *)
Variable Body : Type.
Variable validate : Body -> string + CacheKey.QueryRequest.

(** Remote services: text generation, embedding ([None] when the response
    carries no [values]) and the chunk store; and the successive readings
    of the clock. *)
Variable generateContent : string -> outcome GenerationResponse.
Variable embedContent : string -> outcome (option (list R)).
Variable storedChunks : outcome (list Chunk).
Variable clock : nat -> Z.

(** [Date.now()] *)
Definition dateNow : M Z :=
  fun st =>
    (Returned (clock (clockReads st)),
     {| cache := cache st; metrics := metrics st; clockReads := S (clockReads st);
        trace := trace st |}).

(** [ragMetrics.recordQuery(responseTime, cacheHit, error)] *)
Definition recordQuery (responseTime : Z) (cacheHit error : bool) : M unit :=
  fun st =>
    (Returned tt,
     {| cache := cache st;
        metrics := Metrics.recordQuery (inject_Z responseTime) cacheHit error (metrics st);
        clockReads := clockReads st; trace := trace st |}).

(** [cache.get(key)]: an expired entry is dropped and not returned. *)
Definition cacheGet (key : string) : M (option QueryResult) :=
  now <- dateNow ;;
  fun st =>
    match lookupFresh now key (cache st) with
    | Some value => (Returned (Some value), st)
    | None =>
        (Returned None,
         {| cache := delete key (cache st); metrics := metrics st;
            clockReads := clockReads st; trace := trace st |})
    end.

(** [cache.set(key, value, ttl)], [ttl] in seconds. *)
Definition cacheSet (key : string) (value : QueryResult) (ttl : Z) : M unit :=
  now <- dateNow ;;
  fun st =>
    (Returned tt,
     {| cache := <[key := (value, (now + ttl * 1000)%Z)]> (cache st);
        metrics := metrics st; clockReads := clockReads st; trace := trace st |}).

Definition callGenerateContent (prompt : string) : M GenerationResponse :=
  emit (GenerateContent prompt) ;;; fromOutcome (generateContent prompt).

Definition callEmbedContent (input : string) : M (option (list R)) :=
  emit (EmbedContent input) ;;; fromOutcome (embedContent input).

(** [generateMultipleQueries(originalQuery, numQueries = 3)] *)
Definition generateMultipleQueries (originalQuery : string) (numQueries : Z)
    : M (list string) :=
  let prompt := expansionPrompt originalQuery numQueries in
  tryCatch
    (response <- callGenerateContent prompt ;;
     match text response with
     | Some generatedText =>
         ret (originalQuery :: parseQueries generatedText numQueries)
     | None => raise "response.text failed"
     end)
    (fun _ => ret [originalQuery]).

(** The two nested loops that fill [hybridResults]. *)
Fixpoint retrieveAll (corpus : list string) (allChunks : list Chunk)
    (queryVariations : list string) (hybridResults : list Ranker.HybridResult)
    : M (list Ranker.HybridResult) :=
  match queryVariations with
  | [] => ret hybridResults
  | queryVariation :: rest =>
      queryVector <- callEmbedContent queryVariation ;;
      retrieveAll corpus allChunks rest
        (hybridResults
         ++ List.map (Ranker.scoreChunk cosine tokenize corpus queryVariation queryVector)
              allChunks)
  end.

(** [await ragEvaluator.evaluateRAGResponse(question, generatedText, chunks)]:
    the clock is read for [timestamp] once the three scores are there, so a
    rejected evaluation has not read it. *)
Definition callEvaluate (question answer : string) (retrievedChunks : list Chunk)
    : M Evaluator.Evaluation :=
  fun st =>
    match Evaluator.evaluateRAGResponse terms question answer retrievedChunks None
            (clock (clockReads st)) with
    | Returned evaluation =>
        (Returned evaluation,
         {| cache := cache st; metrics := metrics st; clockReads := S (clockReads st);
            trace := trace st |})
    | Raised message => (Raised message, st)
    end.

(** The non-empty-corpus part of the route, from [allChunks] on. *)
Definition answerFromChunks (startTime : Z) (value : CacheKey.QueryRequest)
    (cacheKey : string) (queryVariations : list string) (allChunks : list Chunk)
    : M Response :=
  let question := CacheKey.question value in
  let corpus := List.map content allChunks in
  hybridResults <- retrieveAll corpus allChunks queryVariations [] ;;
  let topResults := Ranker.rankResults hybridResults (CacheKey.maxResults value) in
  let context :=
    JsString.join (newline ++ newline)
      (List.map (fun item => content (Ranker.chunk item)) topResults) in
  response <- callGenerateContent (answerPrompt context question) ;;
  generatedText <-
    match text response with
    | Some t => ret t
    | None => fromOutcome (candidateText response)
    end ;;
  evaluation <- callEvaluate question generatedText (List.map Ranker.chunk topResults) ;;
  finishedAt <- dateNow ;;
  stampedAt <- dateNow ;;
  let finalResult :=
    {| answer := generatedText;
       sources := List.map (toSource (CacheKey.includeMetadata value)) topResults;
       queryVariations := queryVariations;
       retrievalMethod := Some "hybrid";
       evaluation := Some evaluation;
       responseTime := (finishedAt - startTime)%Z;
       timestamp := Some stampedAt;
       cached := false |} in
  cacheSet cacheKey finalResult 1800 ;;;
  recordedAt <- dateNow ;;
  recordQuery (recordedAt - startTime) false false ;;;
  ret (Json finalResult).

(** [app.post('/query', ...)] *)
Definition queryRoute (body : Body) : M Response :=
  startTime <- dateNow ;;
  tryCatch
    (match validate body with
     | inl error => ret (BadRequest error)
     | inr value =>
         let question := CacheKey.question value in
         let cacheKey := CacheKey.cacheKey question in
         cachedResult <- cacheGet cacheKey ;;
         match cachedResult with
         | Some cachedResult =>
             recordedAt <- dateNow ;;
             recordQuery (recordedAt - startTime) true false ;;;
             answeredAt <- dateNow ;;
             ret (Json {| answer := answer cachedResult;
                          sources := sources cachedResult;
                          queryVariations := queryVariations cachedResult;
                          retrievalMethod := retrievalMethod cachedResult;
                          evaluation := evaluation cachedResult;
                          responseTime := (answeredAt - startTime)%Z;
                          timestamp := timestamp cachedResult;
                          cached := true |})
         | None =>
             queryVariations <- generateMultipleQueries question 3 ;;
             finally
               (emit (RunCypher chunkQuery) ;;;
                allChunks <- fromOutcome storedChunks ;;
                match allChunks with
                | [] =>
                    answeredAt <- dateNow ;;
                    ret (Json {| answer := noDocumentsAnswer;
                                 sources := [];
                                 queryVariations := queryVariations;
                                 retrievalMethod := None;
                                 evaluation := None;
                                 responseTime := (answeredAt - startTime)%Z;
                                 timestamp := None;
                                 cached := false |})
                | _ => answerFromChunks startTime value cacheKey queryVariations allChunks
                end)
               (fun st =>
                  {| cache := cache st; metrics := metrics st;
                     clockReads := clockReads st; trace := trace st ++ [CloseSession] |})
         end
     end)
    (fun err =>
       recordedAt <- dateNow ;;
       recordQuery (recordedAt - startTime) false true ;;;
       answeredAt <- dateNow ;;
       ret (ServerError "Failed to process query" err (answeredAt - startTime))).

End WithServices.

End Server.

(** ** The [/health] route *)

Module Health.
Import Server.

Inductive Connection := Connected | Disconnected | Unknown.

Inductive Overall := OK | ERROR.

(** The JSON object the route answers with; [cacheStats] and
    [currentMetrics] are absent from the answer given when the store probe
    fails, [error] is absent when there is no message to report. *)
Record HealthReport (Stats : Type) := {
  status : Overall;
  neo4j : Connection;
  geminiEmbedding : Connection;
  geminiGeneration : Connection;
  cacheStats : option Stats;
  currentMetrics : option Metrics.metrics;
  error : option string;
  timestamp : Z
}.
Arguments status {Stats}.
Arguments neo4j {Stats}.
Arguments geminiEmbedding {Stats}.
Arguments geminiGeneration {Stats}.
Arguments cacheStats {Stats}.
Arguments currentMetrics {Stats}.
Arguments error {Stats}.
Arguments timestamp {Stats}.

Definition probeStatement : string := "RETURN 1".
Definition probeText : string := "Health check test".

(** [a || b] on messages: the empty string is falsy. *)
Definition orElse (message : string) (fallback : option string) : option string :=
  if JsString.truthy message then Some message else fallback.

(** [...(errorMessage && { error: errorMessage })] *)
Definition errorField (errorMessage : option string) : option string :=
  match errorMessage with
  | Some message => if JsString.truthy message then Some message else None
  | None => None
  end.

Section WithServices.

(** The statistics object of the cache package. *)
Variable Stats : Type.
Variable getStats : gmap string (QueryResult * Z) -> Stats.

(** The three probes: [session.run('RETURN 1')], an embedding request and a
    generation request. *)
Variable probeStore : outcome unit.
Variable generateContent : string -> outcome GenerationResponse.
Variable embedContent : string -> outcome (option (list R)).
Variable clock : nat -> Z.

Definition getState : M State := fun st => (Returned st, st).

(** [app.get('/health', ...)] *)
Definition healthRoute : M (HealthReport Stats) :=
  finally
    (tryCatch
       (emit (RunCypher probeStatement) ;;;
        fromOutcome probeStore ;;;
        embeddingFailure <-
          tryCatch (callEmbedContent embedContent probeText ;;; ret None)
            (fun message => ret (Some message)) ;;
        generationFailure <-
          tryCatch (callGenerateContent generateContent probeText ;;; ret None)
            (fun message => ret (Some message)) ;;
        let errorMessage :=
          match generationFailure with
          | Some message => orElse message embeddingFailure
          | None => embeddingFailure
          end in
        st <- getState ;;
        now <- dateNow clock ;;
        ret {| status :=
                 match embeddingFailure, generationFailure with
                 | None, None => OK
                 | _, _ => ERROR
                 end;
               neo4j := Connected;
               geminiEmbedding :=
                 match embeddingFailure with None => Connected | Some _ => Disconnected end;
               geminiGeneration :=
                 match generationFailure with None => Connected | Some _ => Disconnected end;
               cacheStats := Some (getStats (cache st));
               currentMetrics := Some (metrics st);
               error := errorField errorMessage;
               timestamp := now |})
       (fun err =>
          now <- dateNow clock ;;
          ret {| status := ERROR;
                 neo4j := Disconnected;
                 geminiEmbedding := Unknown;
                 geminiGeneration := Unknown;
                 cacheStats := None;
                 currentMetrics := None;
                 error := Some err;
                 timestamp := now |}))
    (fun st =>
       {| cache := cache st; metrics := metrics st;
          clockReads := clockReads st; trace := trace st ++ [CloseSession] |}).

End WithServices.

End Health.

(** ** Chunking of the extracted text *)

Module Chunking.

(** The loop of [chunkText]: [i] is the loop variable and [chunks] the array
    built so far.  [fuel] bounds the number of iterations; [None] means the
    bound was reached with the loop condition still true. *)
Fixpoint chunkLoop (fuel : nat) (text : string) (chunkSize i : nat)
    (chunks : list string) : option (list string) :=
  if Nat.ltb i (String.length text) then
    match fuel with
    | O => None
    | S fuel' =>
        chunkLoop fuel' text chunkSize (i + chunkSize)
          (chunks ++ [String.substring i chunkSize text])
    end
  else Some chunks.

(** [chunkText(text, chunkSize = 1000)] *)
Definition chunkText (fuel : nat) (text : string) (chunkSize : option nat)
    : option (list string) :=
  chunkLoop fuel text (default 1000%nat chunkSize) 0 [].

End Chunking.

(** ** The [/upload] route *)

Module Upload.
Import Server.

(** [req.file], as the upload middleware leaves it. *)
Record UploadedFile := {
  path : string;
  originalname : string
}.

(** The parameters of the three write statements. *)
Record DocumentNode := {
  documentId : string;
  title : string;
  documentContent : string;
  processingTime : Z
}.

Record ChunkNode := {
  chunkId : string;
  chunkDocId : string;
  chunkContent : string;
  index : nat;
  chunkEmbedding : option (list R);
  wordCount : nat
}.

Inductive Statement :=
| CreateDocument (d : DocumentNode)
| CreateChunk (c : ChunkNode)
| CreateRelationship (docId chunkId : string).

(** What reached the store: the statements that ran, and session closes. *)
Inductive StoreEvent :=
| Ran (s : Statement)
| Closed.

Inductive UploadResponse :=
| Processed (message id : string) (chunksProcessed : nat) (processingTime timestamp : Z)
| NoFile (error : string)
| Failed (error details : string).

(** The part of the process the route touches: the store, the cache
    entries it writes (value and expiry instant), the files on disk and
    the number of clock readings taken so far. *)
Record State := {
  store : list StoreEvent;
  chunkCache : gmap string (list string * Z);
  files : gset string;
  clockReads : nat
}.

Definition U (A : Type) : Type := State -> outcome A * State.

Definition ret {A} (a : A) : U A := fun st => (Returned a, st).

Definition bind {A B} (m : U A) (k : A -> U B) : U B :=
  fun st =>
    match m st with
    | (Returned a, st') => k a st'
    | (Raised e, st') => (Raised e, st')
    end.

Definition tryCatch {A} (m : U A) (handler : string -> U A) : U A :=
  fun st =>
    match m st with
    | (Returned a, st') => (Returned a, st')
    | (Raised e, st') => handler e st'
    end.

Definition finally {A} (m : U A) (cleanup : State -> State) : U A :=
  fun st => let (r, st') := m st in (r, cleanup st').

Definition fromOutcome {A} (r : outcome A) : U A := fun st => (r, st).

Notation "x <-- m ;; k" := (bind m (fun x => k))
  (at level 62, m at next level, right associativity).
Notation "m ;;;; k" := (bind m (fun _ => k))
  (at level 62, right associativity).

(** [`${docId}_chunk_${i}`] *)
Definition chunkIdOf (docId : string) (i : nat) : string :=
  (docId ++ "_chunk_" ++ numberToString (Z.of_nat i))%string.

(** [`doc_chunks_${docId}`] *)
Definition chunkCacheKey (docId : string) : string := ("doc_chunks_" ++ docId)%string.

(** The text of the pages: the items of a page joined by a space, a line
    break after each page. *)
Definition pagesText (pages : list (list string)) : string :=
  fold_left (fun text items => (text ++ JsString.join " " items ++ newline)%string)
    pages EmptyString.

(** [chunkText(text, 1000)]; the text length bounds the iterations of the
    loop, so the bound is not reached. *)
Definition chunksOf (text : string) : list string :=
  default [] (Chunking.chunkText (String.length text) text (Some 1000%nat)).

(** The chunk nodes among the writes that reached the store. *)
Definition createdChunks (events : list StoreEvent) : list ChunkNode :=
  flat_map (fun e => match e with Ran (CreateChunk c) => [c] | _ => [] end) events.

Section WithServices.

(** Reading the uploaded file and extracting the text items of each page;
    the embedding service; the store, which runs or refuses a write; and
    the successive readings of the clock. *)
Variable extractPages : string -> outcome (list (list string)).
Variable embedContent : string -> outcome (option (list R)).
Variable runStatement : Statement -> outcome unit.
Variable clock : nat -> Z.

Definition dateNow : U Z :=
  fun st =>
    (Returned (clock (clockReads st)),
     {| store := store st; chunkCache := chunkCache st; files := files st;
        clockReads := S (clockReads st) |}).

(** [await session.run(statement, params)] *)
Definition run (s : Statement) : U unit :=
  fun st =>
    match runStatement s with
    | Returned _ =>
        (Returned tt,
         {| store := store st ++ [Ran s]; chunkCache := chunkCache st;
            files := files st; clockReads := clockReads st |})
    | Raised message => (Raised message, st)
    end.

(** [cache.set(key, value)] with the default lifetime of one hour. *)
Definition cacheSet (key : string) (value : list string) : U unit :=
  now <-- dateNow ;;
  fun st =>
    (Returned tt,
     {| store := store st;
        chunkCache := <[key := (value, (now + 3600 * 1000)%Z)]> (chunkCache st);
        files := files st; clockReads := clockReads st |}).

(** [if (fs.existsSync(path)) fs.unlinkSync(path)] *)
Definition removeFile (path : string) : U unit :=
  fun st =>
    (Returned tt,
     {| store := store st; chunkCache := chunkCache st;
        files := if decide (path ∈ files st) then files st ∖ {[ path ]} else files st;
        clockReads := clockReads st |}).

(** The loop over the chunks: a chunk whose processing raises is logged and
    skipped. *)
Fixpoint processChunks (docId : string) (chunks : list string) (i : nat)
    (allChunks : list string) : U (list string) :=
  match chunks with
  | [] => ret allChunks
  | chunk :: rest =>
      allChunks' <--
        tryCatch
          (embedding <-- fromOutcome (embedContent chunk) ;;
           run (CreateChunk
                  {| chunkId := chunkIdOf docId i;
                     chunkDocId := docId;
                     chunkContent := chunk;
                     index := i;
                     chunkEmbedding := embedding;
                     wordCount :=
                       List.length (JsString.split " "%char chunk) |}) ;;;;
           run (CreateRelationship docId (chunkIdOf docId i)) ;;;;
           ret (allChunks ++ [chunk]))
          (fun _ => ret allChunks) ;;
      processChunks docId rest (S i) allChunks'
  end.

(** The writes the loop performs for the chunks numbered from [i] on when
    the store accepts every statement: two per chunk whose embedding
    request returns, none for a chunk whose request raises. *)
Fixpoint writesFor (docId : string) (i : nat) (chunks : list string) : list StoreEvent :=
  match chunks with
  | [] => []
  | chunk :: rest =>
      match embedContent chunk with
      | Returned embedding =>
          [Ran (CreateChunk
                  {| chunkId := chunkIdOf docId i;
                     chunkDocId := docId;
                     chunkContent := chunk;
                     index := i;
                     chunkEmbedding := embedding;
                     wordCount := List.length (JsString.split " "%char chunk) |});
           Ran (CreateRelationship docId (chunkIdOf docId i))]
      | Raised _ => []
      end ++ writesFor docId (S i) rest
  end.

(** Whether the embedding request for a chunk returns. *)
Definition embeds (chunk : string) : bool :=
  match embedContent chunk with Returned _ => true | Raised _ => false end.

(** [app.post('/upload', upload.single('pdf'), ...)] *)
Definition uploadRoute (file : option UploadedFile) : U UploadResponse :=
  startTime <-- dateNow ;;
  tryCatch
    (match file with
     | None => ret (NoFile "No PDF file provided")
     | Some f =>
         pages <-- fromOutcome (extractPages (path f)) ;;
         let text := pagesText pages in
         createdAt <-- dateNow ;;
         let docId := ("doc_" ++ numberToString createdAt)%string in
         let chunks := chunksOf text in
         response <--
           finally
             (processedAt <-- dateNow ;;
              run (CreateDocument
                     {| documentId := docId;
                        title := originalname f;
                        documentContent := text;
                        processingTime := (processedAt - startTime)%Z |}) ;;;;
              allChunks <-- processChunks docId chunks 0 [] ;;
              cacheSet (chunkCacheKey docId) allChunks ;;;;
              finishedAt <-- dateNow ;;
              stampedAt <-- dateNow ;;
              ret (Processed "PDF processed and stored successfully" docId
                     (List.length chunks) (finishedAt - startTime) stampedAt))
             (fun st =>
                {| store := store st ++ [Closed]; chunkCache := chunkCache st;
                   files := files st; clockReads := clockReads st |}) ;;
         removeFile (path f) ;;;;
         ret response
     end)
    (fun err => ret (Failed "Failed to process PDF" err)).

End WithServices.

End Upload.

(** ** Concrete inputs used by the examples *)

Module Examples.

(** A miss, a hit and a failure. *)
Definition threeCalls : list Metrics.call :=
  [ {| Metrics.responseTime := 120; Metrics.cacheHit := false; Metrics.error := false |};
    {| Metrics.responseTime := 30 # 4; Metrics.cacheHit := true; Metrics.error := false |};
    {| Metrics.responseTime := 500; Metrics.cacheHit := false; Metrics.error := true |} ].

Definition catChunk : Chunk :=
  {| id := "doc_1_chunk_0"; content := "a cat is a small pet";
     embedding := [1%R; 0%R]; docId := "doc_1"; chunkIndex := 0 |}.

Definition dogChunk : Chunk :=
  {| id := "doc_1_chunk_1"; content := "a dog is a loyal pet";
     embedding := [(9 / 10)%R; (1 / 10)%R]; docId := "doc_1"; chunkIndex := 1 |}.

Definition carChunk : Chunk :=
  {| id := "doc_2_chunk_0"; content := "a car has four wheels";
     embedding := [0%R; 1%R]; docId := "doc_2"; chunkIndex := 0 |}.

Definition petCorpus : list Chunk := [catChunk; dogChunk; carChunk].

(** Two variations of one question with the vectors returned for them. *)
Definition petVariations : list (string * option (list R)) :=
  [("Tell me about pets", Some [1%R; 0%R]);
   ("Which animals are kept as a pet", Some [(8 / 10)%R; (2 / 10)%R])].

(** A package binding that raises when called. *)
Definition cosineRaises (vec1 vec2 : list R) : option R := None.

(** The same binding for the doubles, and the vectors [[1, 1, 1]] and
    [[1e200, 1e200]] (the double nearest to [1e200] is
    [0x1.4e718d7d7625ap+664]). *)
Definition cosineRaises64 (vec1 vec2 : list Float64.double) : option Float64.double :=
  None.

Definition ones : list Float64.double := [Float64.one; Float64.one; Float64.one].

Definition huge : list Float64.double :=
  [Float64.scaled 5883593420661338 612; Float64.scaled 5883593420661338 612].

(** Request bodies with the three fields the route reads, and what the
    schema answers for such bodies: a question of 3 to 500 code units and a
    [maxResults] from 1 to 20 pass, with [false] and 5 filled in for the
    fields left out; otherwise the message names the first rule that
    fails. *)
Record Body := {
  bodyQuestion : option string;
  bodyIncludeMetadata : option bool;
  bodyMaxResults : option Z
}.

Definition quoted (key : string) : string :=
  (Server.doubleQuote ++ key ++ Server.doubleQuote)%string.

Definition validate (body : Body) : string + CacheKey.QueryRequest :=
  match bodyQuestion body with
  | None => inl (quoted "question" ++ " is required")%string
  | Some question =>
      if Nat.eqb (String.length question) 0
      then inl (quoted "question" ++ " is not allowed to be empty")%string
      else if Nat.ltb (String.length question) 3
      then inl (quoted "question" ++ " length must be at least 3 characters long")%string
      else if Nat.ltb 500 (String.length question)
      then inl (quoted "question"
                ++ " length must be less than or equal to 500 characters long")%string
      else
        let includeMetadata := default false (bodyIncludeMetadata body) in
        let maxResults := default 5%Z (bodyMaxResults body) in
        if (maxResults <? 1)%Z
        then inl (quoted "maxResults" ++ " must be greater than or equal to 1")%string
        else if (20 <? maxResults)%Z
        then inl (quoted "maxResults" ++ " must be less than or equal to 20")%string
        else inr {| CacheKey.question := question;
                    CacheKey.includeMetadata := includeMetadata;
                    CacheKey.maxResults := maxResults |}
  end.

(** A request, a fresh process and services that answer. *)
Definition catBody : Body :=
  {| bodyQuestion := Some "What is a cat?";
     bodyIncludeMetadata := None;
     bodyMaxResults := None |}.

Definition catRequest : CacheKey.QueryRequest :=
  {| CacheKey.question := "What is a cat?";
     CacheKey.includeMetadata := false;
     CacheKey.maxResults := 5 |}.

Definition catRequestTen : CacheKey.QueryRequest :=
  {| CacheKey.question := "What is a cat?";
     CacheKey.includeMetadata := true;
     CacheKey.maxResults := 10 |}.

Definition freshState : Server.State :=
  {| Server.cache := ∅; Server.metrics := Metrics.initial;
     Server.clockReads := 0; Server.trace := [] |}.

Definition generationService (prompt : string) : outcome Server.GenerationResponse :=
  Returned
    {| Server.text := Some ("1. Describe a cat" ++ Server.newline
                            ++ "2. What kind of pet is a cat?")%string;
       Server.candidateText := Raised "Cannot read properties of undefined" |}.

Definition embeddingService (input : string) : outcome (option (list R)) :=
  Returned (Some [1%R; 0%R]).

Definition clock (reads : nat) : Z := 1735689600000 + 25 * Z.of_nat reads.



(** The same question asked for ten results with metadata, and a question
    the schema rejects. *)
Definition catBodyTen : Body :=
  {| bodyQuestion := Some "What is a cat?";
     bodyIncludeMetadata := Some true;
     bodyMaxResults := Some 10%Z |}.

Definition shortBody : Body :=
  {| bodyQuestion := Some "hi";
     bodyIncludeMetadata := None;
     bodyMaxResults := None |}.

(** A process whose cache holds an answer to the cat question with a single
    source and no metadata, as a request for one result would have left
    it. *)
Definition storedAnswer : Server.QueryResult :=
  {| Server.answer := "A cat is a small pet.";
     Server.sources :=
       [ {| Server.sourceContent := "a cat is a small pet...";
            Server.sourceVectorScore := 1%R;
            Server.sourceBm25Score := (1 / 3)%R;
            Server.sourceHybridScore := (8 / 10)%R;
            Server.sourceDocId := "doc_1";
            Server.sourceChunkIndex := 0;
            Server.metadata := None |} ];
     Server.queryVariations := ["What is a cat?"];
     Server.retrievalMethod := Some "hybrid";
     Server.evaluation := None;
     Server.responseTime := 900;
     Server.timestamp := Some 1735689600000%Z;
     Server.cached := false |}.

Definition seededState : Server.State :=
  {| Server.cache :=
       {[ CacheKey.cacheKey "What is a cat?" := (storedAnswer, 1735691400000%Z) ]};
     Server.metrics := Metrics.initial;
     Server.clockReads := 0; Server.trace := [] |}.

(** An embedding service that is out of quota, and a clock that advances
    by a thousand seconds between two readings. *)
Definition failingEmbedding (input : string) : outcome (option (list R)) :=
  Raised "quota exceeded".

Definition slowClock (reads : nat) : Z := 1735689600000 + 1000000 * Z.of_nat reads.

(** An uploaded file of two pages, a store that accepts every write and a
    process that has the file on disk. *)
Definition uploadedFile : Upload.UploadedFile :=
  {| Upload.path := "uploads/1735689600000-pets.pdf";
     Upload.originalname := "pets.pdf" |}.

Definition twoPages (path : string) : outcome (list (list string)) :=
  Returned [["A cat is a"; "small pet."]; ["A dog is a loyal pet."]].

Definition unreadable (path : string) : outcome (list (list string)) :=
  Raised "Invalid PDF structure".

Definition acceptingStore (s : Upload.Statement) : outcome unit :=
  Returned tt.

Definition uploadState : Upload.State :=
  {| Upload.store := []; Upload.chunkCache := ∅;
     Upload.files := {[ "uploads/1735689600000-pets.pdf" ]};
     Upload.clockReads := 0 |}.

End Examples.

(** * Verification *)

(** ** Running means of [RAGMetrics] *)

Module MetricsSpec.
Import Metrics.

Local Open Scope Q_scope.

Lemma after_snoc (calls : list call) (c : call) :
  after (calls ++ [c]) = record (after calls) c.
Proof. unfold after. now rewrite fold_left_app. Qed.

Lemma totalQueries_after (calls : list call) :
  totalQueries (after calls) = Z.of_nat (List.length calls).
Proof.
  induction calls as [|c calls IH] using rev_ind; [reflexivity|].
  rewrite after_snoc, length_app. cbn. rewrite IH. lia.
Qed.

Lemma inject_Z_succ (n : nat) :
  inject_Z (Z.of_nat n + 1) == inject_Z (Z.of_nat n) + 1.
Proof. now rewrite inject_Z_plus. Qed.

Lemma inject_Z_succ_nonzero (n : nat) : ~ inject_Z (Z.of_nat n + 1) == 0.
Proof.
  unfold Qeq. cbn. lia.
Qed.

Lemma total_snoc (ts : list Q) (t : Q) : total (ts ++ [t]) == total ts + t.
Proof.
  unfold total. induction ts as [|x ts IH]; cbn [fold_right app].
  - ring.
  - rewrite IH. ring.
Qed.

Lemma count_snoc (p : call -> bool) (calls : list call) (c : call) :
  count p (calls ++ [c]) = (count p calls + if p c then 1 else 0)%Z.
Proof.
  unfold count. rewrite List.filter_app, length_app. cbn.
  destruct (p c); cbn; lia.
Qed.

Lemma count_bounds (p : call -> bool) (calls : list call) :
  (0 <= count p calls <= Z.of_nat (List.length calls))%Z.
Proof.
  unfold count. pose proof (List.filter_length_le p calls). lia.
Qed.

(** The product form of the three running means. *)
Lemma means_after (calls : list call) :
  inject_Z (Z.of_nat (List.length calls)) * averageResponseTime (after calls)
    == total (List.map responseTime calls) /\
  inject_Z (Z.of_nat (List.length calls)) * cacheHitRate (after calls)
    == inject_Z (count cacheHit calls) /\
  inject_Z (Z.of_nat (List.length calls)) * errorRate (after calls)
    == inject_Z (count error calls).
Proof.
  induction calls as [|c calls IH] using rev_ind.
  - cbn. repeat split; reflexivity.
  - destruct IH as (IHa & IHc & IHe).
    rewrite after_snoc, List.map_app, !count_snoc, length_app.
    cbn [List.length List.map]. unfold record, recordQuery.
    cbn [averageResponseTime cacheHitRate errorRate].
    rewrite totalQueries_after.
    replace (Z.of_nat (List.length calls + 1)) with (Z.of_nat (List.length calls) + 1)%Z by lia.
    pose proof (inject_Z_succ_nonzero (List.length calls)) as Hnz.
    pose proof (inject_Z_succ (List.length calls)) as Hs.
    set (k := inject_Z (Z.of_nat (List.length calls) + 1)) in *.
    set (n := inject_Z (Z.of_nat (List.length calls))) in *.
    assert (Hk : k - 1 == n) by (rewrite Hs; ring).
    repeat split.
    + rewrite total_snoc, <- IHa. rewrite Hk.
      field. exact Hnz.
    + rewrite inject_Z_plus, <- IHc.
      destruct (cacheHit c); rewrite Hk;
        cbn [inject_Z]; field; exact Hnz.
    + rewrite inject_Z_plus, <- IHe.
      destruct (error c); rewrite Hk;
        cbn [inject_Z]; field; exact Hnz.
Qed.

Lemma rate_in_unit_interval (n : nat) (k : Z) (r : Q) :
  (0 <= k <= Z.of_nat n)%Z ->
  (n = 0%nat -> r == 0) ->
  inject_Z (Z.of_nat n) * r == inject_Z k ->
  0 <= r /\ r <= 1.
Proof.
  intros Hk H0 Hr. destruct n as [|n].
  - rewrite (H0 eq_refl). split; [apply Qle_refl | discriminate].
  - assert (Hpos : 0 < inject_Z (Z.of_nat (S n))).
    { rewrite <- (Zlt_Qlt 0). lia. }
    assert (Hr' : r == inject_Z k / inject_Z (Z.of_nat (S n))).
    { rewrite <- Hr. field. intros E. rewrite E in Hpos. discriminate. }
    rewrite Hr'. split.
    + apply Qle_shift_div_l; [exact Hpos|]. rewrite Qmult_0_l.
      rewrite <- (Zle_Qle 0). lia.
    + apply Qle_shift_div_r; [exact Hpos|]. rewrite Qmult_1_l.
      rewrite <- Zle_Qle. lia.
Qed.

Lemma rates_after_nil_zero (calls : list call) :
  List.length calls = 0%nat ->
  cacheHitRate (after calls) == 0 /\ errorRate (after calls) == 0.
Proof.
  destruct calls; [split; reflexivity | discriminate].
Qed.

(** C9.  Starting from the initial metrics, after any sequence of N >= 1
    [recordQuery] calls with response times t1..tN, [averageResponseTime]
    is the arithmetic mean (t1 + ... + tN) / N; and each call changes it
    exactly as the incremental update
    newMean = oldMean + (value - oldMean) / n does, n being the new
    [totalQueries]. *)
Theorem averageResponseTime_is_mean (calls : list call) :
  calls <> [] ->
  averageResponseTime (after calls)
    == total (List.map responseTime calls) / inject_Z (Z.of_nat (List.length calls)) /\
  forall c : call,
    averageResponseTime (after (calls ++ [c]))
      == incrementalMean (averageResponseTime (after calls)) (responseTime c)
           (totalQueries (after (calls ++ [c]))).
Proof.
  intros Hne.
  assert (Hn : ~ inject_Z (Z.of_nat (List.length calls)) == 0).
  { unfold Qeq. cbn. destruct calls; [congruence | cbn; lia]. }
  split.
  - destruct (means_after calls) as (Ha & _). rewrite <- Ha. now field.
  - intros c. rewrite after_snoc. unfold record, recordQuery, incrementalMean.
    cbn [averageResponseTime totalQueries]. rewrite totalQueries_after.
    pose proof (inject_Z_succ_nonzero (List.length calls)) as Hnz.
    field. exact Hnz.
Qed.

Lemma averageResponseTime_is_mean_witness :
  Examples.threeCalls <> [] /\
  averageResponseTime (after Examples.threeCalls) == (120 + (30 # 4) + 500) / 3.
Proof.
  split; [discriminate|].
  destruct (averageResponseTime_is_mean Examples.threeCalls) as [H _]; [discriminate|].
  rewrite H. reflexivity.
Defined.

(** C10.  After every sequence of [recordQuery] calls, [totalQueries] is the
    number of calls, [totalQueries * cacheHitRate] the number of calls made
    with [cacheHit] true and [totalQueries * errorRate] the number made with
    [error] true; both rates lie in [[0, 1]]. *)
Theorem metrics_invariant (calls : list call) :
  let m := after calls in
  totalQueries m = Z.of_nat (List.length calls) /\
  inject_Z (totalQueries m) * cacheHitRate m == inject_Z (count cacheHit calls) /\
  inject_Z (totalQueries m) * errorRate m == inject_Z (count error calls) /\
  (0 <= cacheHitRate m /\ cacheHitRate m <= 1) /\
  (0 <= errorRate m /\ errorRate m <= 1).
Proof.
  cbn zeta. rewrite totalQueries_after.
  destruct (means_after calls) as (_ & Hc & He).
  assert (Hcr : 0 <= cacheHitRate (after calls) /\ cacheHitRate (after calls) <= 1).
  { eapply rate_in_unit_interval; [apply (count_bounds cacheHit) | | exact Hc].
    intros E. now apply rates_after_nil_zero. }
  assert (Her : 0 <= errorRate (after calls) /\ errorRate (after calls) <= 1).
  { eapply rate_in_unit_interval; [apply (count_bounds error) | | exact He].
    intros E. now apply rates_after_nil_zero. }
  auto.
Qed.

End MetricsSpec.

(** ** Lexical overlap scores of [RAGEvaluator] *)

Module EvaluatorSpec.
Import Evaluator Examples.




Lemma divSizes_pos (a b : nat) :
  b <> 0%nat -> divSizes a b = Num (Qred (Z.of_nat a # Pos.of_nat b)).
Proof. destruct b; [congruence | reflexivity]. Qed.

Lemma intersection_as_filter (X Y : gset string) :
  base.filter (fun term => term ∈ Y) X = X ∩ Y.
Proof. apply set_eq. intros x. rewrite elem_of_filter. set_solver. Qed.

Lemma intersection_of_empty_union (X Y : gset string) : X ∪ Y = ∅ -> X ∩ Y = ∅.
Proof. set_solver. Qed.

Section WithTerms.

Variable terms : string -> list string.

(** The quotient the code forms is the Jaccard index of the two term sets. *)
Lemma similarity_is_jaccard (text1 text2 : string) :
  calculateSemanticSimilarity terms text1 text2
  = divSizes (size ((list_to_set (terms text1) : gset string) ∩ list_to_set (terms text2)))
             (size ((list_to_set (terms text1) : gset string) ∪ list_to_set (terms text2))).
Proof.
  unfold calculateSemanticSimilarity. cbv zeta. now rewrite intersection_as_filter.
Qed.

(** C7.  [calculateAnswerRelevance] is the Jaccard index of the two term
    sets whenever their union is not empty; when the union is empty (neither
    text has a term) the quotient is [0 / 0] and the result is [NaN], not a
    conventional finite value. *)
Theorem answerRelevance_jaccard_or_NaN (question answer : string) :
  let Tq : gset string := list_to_set (terms question) in
  let Ta : gset string := list_to_set (terms answer) in
  (Tq ∪ Ta ≠ ∅ ->
   calculateAnswerRelevance terms question answer
   = Num (Qred (Z.of_nat (size (Tq ∩ Ta)) # Pos.of_nat (size (Tq ∪ Ta))))) /\
  (Tq ∪ Ta = ∅ -> calculateAnswerRelevance terms question answer = NaN).
Proof.
  cbv zeta. unfold calculateAnswerRelevance. rewrite similarity_is_jaccard. split.
  - intros Hne. apply divSizes_pos. intros Hsz. apply Hne.
    now apply size_empty_iff, leibniz_equiv in Hsz.
  - intros He.
    rewrite (intersection_of_empty_union _ _ He), He. reflexivity.
Qed.


End WithTerms.

Lemma answerRelevance_jaccard_or_NaN_witness :
  calculateAnswerRelevance JsString.words "   " "" = NaN /\
  calculateAnswerRelevance JsString.words "is a cat a pet" "a cat is a small pet"
  = Num (4 # 5).
Proof.
  split.
  - apply (proj2 (answerRelevance_jaccard_or_NaN JsString.words "   " "")).
    reflexivity.
  - etransitivity.
    + apply (proj1 (answerRelevance_jaccard_or_NaN JsString.words _ _)).
      intros H. apply (f_equal size) in H. vm_compute in H. discriminate H.
    + vm_compute. reflexivity.
Defined.



End EvaluatorSpec.

(** ** Cosine similarity and BM25 *)

Module ScoringSpec.
Import Scoring.

Local Open Scope R_scope.

Lemma fold_left_sum_acc {A} (f : A -> R) (l : list A) (a : R) :
  fold_left (fun sum x => sum + f x) l a = a + fold_left (fun sum x => sum + f x) l 0.
Proof.
  revert a. induction l as [|x l IH]; intros a; cbn.
  - lra.
  - rewrite (IH (a + f x)), (IH (0 + f x)). lra.
Qed.

Lemma sumSquares_cons (x : R) (v : list R) :
  sumSquares (x :: v) = x * x + sumSquares v.
Proof.
  unfold sumSquares. cbn.
  rewrite (fold_left_sum_acc (fun val => val * val)). lra.
Qed.

Lemma dotProduct_cons (x y : R) (v w : list R) :
  dotProduct (x :: v) (y :: w) = x * y + dotProduct v w.
Proof.
  unfold dotProduct. cbn.
  rewrite (fold_left_sum_acc (fun p => fst p * snd p)). lra.
Qed.

Lemma sumSquares_nonneg (v : list R) : 0 <= sumSquares v.
Proof.
  induction v as [|x v IH].
  - unfold sumSquares. cbn. lra.
  - rewrite sumSquares_cons. nra.
Qed.

(** One step of the Cauchy-Schwarz induction. *)
Lemma cauchy_schwarz_step (x y D A B : R) :
  0 <= A -> 0 <= B -> D * D <= A * B ->
  (x * y + D) * (x * y + D) <= (x * x + A) * (y * y + B).
Proof.
  intros HA HB HD.
  assert (Hmid : 2 * (x * y * D) <= x * x * B + y * y * A).
  { destruct (Req_dec_T B 0) as [HB0 | HB0].
    - subst B. assert (HD0 : D = 0).
      { pose proof (Rle_0_sqr D) as HS. unfold Rsqr in HS.
        apply Rsqr_0_uniq. unfold Rsqr. lra. }
      subst D. pose proof (Rle_0_sqr y) as Hy. unfold Rsqr in Hy.
      pose proof (Rmult_le_pos _ _ Hy HA). lra.
    - assert (HBpos : 0 < B) by lra.
      pose proof (Rle_0_sqr (x * B - y * D)) as H1. unfold Rsqr in H1.
      pose proof (Rle_0_sqr y) as Hy. unfold Rsqr in Hy.
      pose proof (Rmult_le_compat_l _ _ _ Hy HD) as H2.
      apply Rmult_le_reg_l with B; [exact HBpos|].
      assert (E : B * (x * x * B + y * y * A) - B * (2 * (x * y * D))
                  = (x * B - y * D) * (x * B - y * D)
                    + (y * y * (A * B) - y * y * (D * D))) by ring.
      lra. }
  assert (E : (x * x + A) * (y * y + B) - (x * y + D) * (x * y + D)
              = (x * x * B + y * y * A - 2 * (x * y * D)) + (A * B - D * D)) by ring.
  lra.
Qed.

Lemma dotProduct_nil_l (w : list R) : dotProduct [] w = 0.
Proof. reflexivity. Qed.

Lemma dotProduct_nil_r (v : list R) : dotProduct v [] = 0.
Proof. destruct v; reflexivity. Qed.

Lemma cauchy_schwarz (v w : list R) :
  dotProduct v w * dotProduct v w <= sumSquares v * sumSquares w.
Proof.
  revert w. induction v as [|x v IH]; intros w.
  - rewrite dotProduct_nil_l, Rmult_0_l.
    apply Rmult_le_pos; apply sumSquares_nonneg.
  - destruct w as [|y w].
    + rewrite dotProduct_nil_r, Rmult_0_l.
      apply Rmult_le_pos; apply sumSquares_nonneg.
    + rewrite dotProduct_cons, !sumSquares_cons.
      apply cauchy_schwarz_step; auto using sumSquares_nonneg.
Qed.

Lemma manualCosine_bounds (v w : list R) : -1 <= manualCosine v w <= 1.
Proof.
  unfold manualCosine.
  destruct (Req_dec_T (sqrt (sumSquares v)) 0) as [|H1]; [lra|].
  destruct (Req_dec_T (sqrt (sumSquares w)) 0) as [|H2]; [lra|].
  pose proof (sqrt_pos (sumSquares v)) as P1.
  pose proof (sqrt_pos (sumSquares w)) as P2.
  pose proof (sqrt_sqrt _ (sumSquares_nonneg v)) as S1.
  pose proof (sqrt_sqrt _ (sumSquares_nonneg w)) as S2.
  pose proof (cauchy_schwarz v w) as CS.
  set (m1 := sqrt (sumSquares v)) in *. set (m2 := sqrt (sumSquares w)) in *.
  set (D := dotProduct v w) in *.
  assert (Hm : 0 < m1 * m2) by nra.
  assert (HD : D * D <= (m1 * m2) * (m1 * m2)).
  { replace ((m1 * m2) * (m1 * m2)) with ((m1 * m1) * (m2 * m2)) by ring.
    now rewrite S1, S2. }
  assert (Hb : - (m1 * m2) <= D <= m1 * m2) by nra.
  split.
  - apply Rmult_le_reg_r with (m1 * m2); [exact Hm|].
    unfold Rdiv. rewrite Rmult_assoc, Rinv_l by lra. lra.
  - apply Rmult_le_reg_r with (m1 * m2); [exact Hm|].
    unfold Rdiv. rewrite Rmult_assoc, Rinv_l by lra. lra.
Qed.

Lemma manualCosine_nil_l (w : list R) : manualCosine [] w = 0.
Proof.
  unfold manualCosine. unfold sumSquares at 1. cbn. rewrite sqrt_0.
  destruct (Req_dec_T 0 0); [reflexivity | congruence].
Qed.

(** *** BM25 *)

Lemma ln_nonneg (x : R) : 1 <= x -> 0 <= ln x.
Proof.
  intros [Hlt | <-].
  - left. rewrite <- ln_1. apply ln_increasing; lra.
  - rewrite ln_1. lra.
Qed.

Lemma ln_neg (x : R) : 0 < x < 1 -> ln x < 0.
Proof. intros [H0 H1]. rewrite <- ln_1. now apply ln_increasing. Qed.

Lemma prefix_length (t s : string) :
  String.prefix t s = true -> (String.length t <= String.length s)%nat.
Proof.
  revert s. induction t as [|c t IH]; intros s H; cbn; [lia|].
  destruct s as [|d s]; cbn in H; [discriminate|].
  destruct (ascii_dec c d); [|discriminate]. cbn. apply IH in H. lia.
Qed.

Lemma includes_length (s t : string) :
  JsString.includes s t = true -> (String.length t <= String.length s)%nat.
Proof.
  induction s as [|c s IH]; cbn [JsString.includes]; intros H.
  - rewrite orb_false_r in H. now apply prefix_length.
  - apply orb_true_iff in H as [H | H].
    + now apply prefix_length.
    + apply IH in H. cbn. lia.
Qed.

Lemma toLowerCase_length (s : string) :
  String.length (JsString.toLowerCase s) = String.length s.
Proof.
  unfold JsString.toLowerCase. induction s as [|c s IH]; cbn; [reflexivity|].
  now rewrite IH.
Qed.

Lemma totalLength_nonneg (corpus : list string) :
  0 <= fold_left (fun sum doc => sum + INR (String.length doc)) corpus 0.
Proof.
  induction corpus as [|d corpus IH]; cbn; [lra|].
  rewrite (fold_left_sum_acc (fun doc => INR (String.length doc))).
  pose proof (pos_INR (String.length d)). lra.
Qed.

Lemma avgDocLength_nonneg (corpus : list string) : 0 <= avgDocLength corpus.
Proof.
  unfold avgDocLength. destruct corpus as [|d corpus].
  - cbn. rewrite Rdiv_0_r. lra.
  - apply Rmult_le_pos; [apply totalLength_nonneg|].
    left. apply Rinv_0_lt_compat, lt_0_INR. cbn. lia.
Qed.

Lemma docFreq_le (term : string) (corpus : list string) :
  (docFreq term corpus <= List.length corpus)%nat.
Proof. apply List.filter_length_le. Qed.

(** A non-empty term found in some document forces a positive total
    length, hence a positive average. *)
Lemma avgDocLength_pos (term : string) (corpus : list string) :
  term <> EmptyString -> (0 < docFreq term corpus)%nat -> 0 < avgDocLength corpus.
Proof.
  intros Hne Hdf. unfold avgDocLength.
  assert (Hn : 0 < INR (List.length corpus)).
  { apply lt_0_INR. pose proof (docFreq_le term corpus). lia. }
  apply Rdiv_lt_0_compat; [|exact Hn]. clear Hn.
  unfold docFreq in Hdf. induction corpus as [|d corpus IH]; cbn in Hdf; [lia|].
  cbn [fold_left]. rewrite (fold_left_sum_acc (fun doc => INR (String.length doc))).
  pose proof (totalLength_nonneg corpus) as Hrest.
  pose proof (pos_INR (String.length d)) as Hd.
  destruct (JsString.includes (JsString.toLowerCase d) term) eqn:Hinc.
  - apply includes_length in Hinc. rewrite toLowerCase_length in Hinc.
    assert (0 < String.length d)%nat.
    { destruct term; [congruence | cbn in Hinc; lia]. }
    assert (0 < INR (String.length d)) by now apply lt_0_INR. lra.
  - specialize (IH Hdf). lra.
Qed.

Lemma tf_denominator_pos (freq docLength : nat) (avg : R) :
  0 <= avg -> 0 < INR freq + k1 * (1 - b + b * (INR docLength / avg)).
Proof.
  intros Havg. unfold k1, b.
  assert (Hq : 0 <= INR docLength / avg).
  { destruct (Req_dec_T avg 0) as [-> | Hnz].
    - rewrite Rdiv_0_r. lra.
    - apply Rmult_le_pos; [apply pos_INR|]. left. apply Rinv_0_lt_compat. lra. }
  pose proof (pos_INR freq). lra.
Qed.

Lemma tf_nonneg (freq docLength : nat) (avg : R) :
  0 <= avg -> 0 <= tf freq docLength avg.
Proof.
  intros Havg. unfold tf. apply Rmult_le_pos.
  - apply Rmult_le_pos; [apply pos_INR | unfold k1; lra].
  - left. apply Rinv_0_lt_compat. now apply tf_denominator_pos.
Qed.

Lemma tf_zero (docLength : nat) (avg : R) : tf 0 docLength avg = 0.
Proof. unfold tf. cbn [INR]. unfold Rdiv. ring. Qed.

Lemma idf_argument_pos (corpus : list string) (df : nat) :
  (df <= List.length corpus)%nat ->
  0 < (INR (List.length corpus) - INR df + 5 / 10) / (INR df + 5 / 10).
Proof.
  intros Hle. apply le_INR in Hle. pose proof (pos_INR df).
  apply Rdiv_lt_0_compat; lra.
Qed.

Lemma idf_nonneg (corpus : list string) (df : nat) :
  (2 * df <= List.length corpus)%nat -> 0 <= idf corpus df.
Proof.
  intros Hle. unfold idf. apply ln_nonneg.
  apply le_INR in Hle. rewrite mult_INR in Hle. cbn [INR] in Hle.
  pose proof (pos_INR df).
  apply Rmult_le_reg_r with (INR df + 5 / 10); [lra|].
  replace ((INR (List.length corpus) - INR df + 5 / 10) / (INR df + 5 / 10)
           * (INR df + 5 / 10))
    with (INR (List.length corpus) - INR df + 5 / 10) by (field; lra).
  lra.
Qed.

Lemma termFreq_zero (term : string) (docTokens : list string) :
  ~ In term docTokens -> termFreq term docTokens = 0%nat.
Proof.
  intros Hnot. unfold termFreq.
  induction docTokens as [|t docTokens IH]; [reflexivity|]. cbn.
  destruct (String.eqb t term) eqn:E.
  - apply String.eqb_eq in E. subst. exfalso. apply Hnot. now left.
  - apply IH. intros Hin. apply Hnot. now right.
Qed.

Lemma sum_nonneg {A} (f : A -> R) (l : list A) :
  (forall x, In x l -> 0 <= f x) ->
  0 <= fold_left (fun sum x => sum + f x) l 0.
Proof.
  induction l as [|x l IH]; intros H; cbn; [lra|].
  rewrite fold_left_sum_acc.
  pose proof (H x (or_introl eq_refl)).
  assert (0 <= fold_left (fun sum x => sum + f x) l 0).
  { apply IH. intros y Hy. apply H. now right. }
  lra.
Qed.

Section BM25.

Variable tokenize : string -> list string.

(** The score is the sum of the per-term contributions. *)
Lemma bm25_as_sum (query document : string) (corpus : list string) :
  calculateBM25Score tokenize query document corpus
  = fold_left
      (fun score term =>
         score + contribution term (tokenize (JsString.toLowerCase document)) corpus)
      (tokenize (JsString.toLowerCase query)) 0.
Proof.
  unfold calculateBM25Score. cbv zeta. generalize 0.
  induction (tokenize (JsString.toLowerCase query)) as [|term l IH]; intros a;
    [reflexivity|].
  cbn [fold_left]. rewrite IH. f_equal. unfold contribution.
  destruct (Nat.ltb 0 (docFreq term corpus)); lra.
Qed.

Lemma contribution_absent (term : string) (docTokens corpus : list string) :
  docFreq term corpus = 0%nat -> contribution term docTokens corpus = 0.
Proof. intros H. unfold contribution. now rewrite H. Qed.

Lemma contribution_nonneg (term : string) (docTokens corpus : list string) :
  (In term docTokens -> (2 * docFreq term corpus <= List.length corpus)%nat) ->
  0 <= contribution term docTokens corpus.
Proof.
  intros H. unfold contribution.
  destruct (Nat.ltb 0 (docFreq term corpus)); [|lra].
  destruct (in_dec string_dec term docTokens) as [Hin | Hnot].
  - apply Rmult_le_pos; [apply idf_nonneg; auto|].
    apply tf_nonneg, avgDocLength_nonneg.
  - rewrite (termFreq_zero _ _ Hnot), tf_zero. lra.
Qed.

(** Every token is a non-empty word, as the word tokeniser guarantees. *)
Hypothesis tokenize_nonempty :
  forall text term : string, In term (tokenize text) -> term <> EmptyString.

(** C6 (as the code has it), in exact arithmetic.  For every query,
    document and corpus: the score is the sum of what the query terms
    contribute; a query term found in no corpus document contributes
    exactly 0; no division by zero occurs for a term that is found; and the
    score is non-negative whenever every query term that is also a token of
    the document occurs in at most half of the corpus documents (the
    inverse document frequency [ln((N - df + 0.5) / (df + 0.5))] is
    negative for a term found in more than half of them).  Only the last
    part depends on the terms being rare. *)
Theorem bm25_nonneg_for_rare_terms (query document : string) (corpus : list string) :
  let queryTokens := tokenize (JsString.toLowerCase query) in
  let docTokens := tokenize (JsString.toLowerCase document) in
  ((forall term, In term queryTokens -> In term docTokens ->
      (2 * docFreq term corpus <= List.length corpus)%nat) ->
   0 <= calculateBM25Score tokenize query document corpus) /\
  calculateBM25Score tokenize query document corpus
  = fold_left (fun score term => score + contribution term docTokens corpus)
      queryTokens 0 /\
  (forall term, In term queryTokens -> docFreq term corpus = 0%nat ->
     contribution term docTokens corpus = 0) /\
  (forall term, In term queryTokens -> (0 < docFreq term corpus)%nat ->
     0 < INR (List.length corpus) /\
     0 < avgDocLength corpus /\
     0 < INR (docFreq term corpus) + 5 / 10 /\
     0 < (INR (List.length corpus) - INR (docFreq term corpus) + 5 / 10)
         / (INR (docFreq term corpus) + 5 / 10) /\
     0 < INR (termFreq term docTokens)
         + k1 * (1 - b + b * (INR (List.length docTokens) / avgDocLength corpus))).
Proof.
  cbv zeta. split; [|split; [|split]].
  - intros Hrare. rewrite bm25_as_sum.
    apply (sum_nonneg (fun term => contribution term _ corpus)).
    intros term Hq. apply contribution_nonneg. now apply Hrare.
  - apply bm25_as_sum.
  - intros term _ Hdf. now apply contribution_absent.
  - intros term Hq Hdf. pose proof (docFreq_le term corpus) as Hle.
    repeat split.
    + apply lt_0_INR. lia.
    + apply (avgDocLength_pos term); [|exact Hdf]. now apply (tokenize_nonempty _ _ Hq).
    + pose proof (pos_INR (docFreq term corpus)). lra.
    + now apply idf_argument_pos.
    + apply tf_denominator_pos, avgDocLength_nonneg.
Qed.

End BM25.

Lemma rev_nonempty (c : ascii) (s : string) : JsString.rev (String c s) <> EmptyString.
Proof. cbn. destruct (JsString.rev s); discriminate. Qed.

Lemma runs_nonempty (p : ascii -> bool) (s cur t : string) :
  In t (JsString.runs p cur s) -> t <> EmptyString.
Proof.
  revert cur. induction s as [|c s IH]; intros cur; cbn.
  - destruct cur; cbn; [tauto|]. intros [<- | []]. apply rev_nonempty.
  - destruct (p c); [apply IH|].
    destruct cur; cbn [JsString.truthy]; [apply IH|].
    intros [<- | H]; [apply rev_nonempty | now apply IH in H].
Qed.

Lemma wordTokens_nonempty (text term : string) :
  In term (JsString.wordTokens text) -> term <> EmptyString.
Proof. apply runs_nonempty. Qed.

Lemma bm25_nonneg_for_rare_terms_witness :
  0 <= calculateBM25Score JsString.wordTokens "Cat" "The cat sat"
         ["the cat sat"; "a dog ran"; "cars are fast"] /\
  (0 < docFreq "cats" ["cats purr"])%nat /\
  0 < avgDocLength ["cats purr"].
Proof.
  split; [|split].
  - apply (proj1 (bm25_nonneg_for_rare_terms JsString.wordTokens wordTokens_nonempty
                    "Cat" "The cat sat" ["the cat sat"; "a dog ran"; "cars are fast"])).
    intros term Hq _. vm_compute in Hq. destruct Hq as [<- | []].
    vm_compute. lia.
  - vm_compute. lia.
  - apply (proj2 (proj2 (proj2
             (bm25_nonneg_for_rare_terms JsString.wordTokens wordTokens_nonempty
                "cats" "cats purr" ["cats purr"]))) "cats").
    + vm_compute. now left.
    + vm_compute. lia.
Defined.

(** C6, as stated, fails: with a single stored chunk, a query word that
    occurs in it has document frequency 1 = N and a negative weight. *)
Lemma bm25_negative_example :
  ~ ((forall term,
        In term (JsString.wordTokens (JsString.toLowerCase "cats")) ->
        In term (JsString.wordTokens (JsString.toLowerCase "cats purr")) ->
        (0 < docFreq term ["cats purr"])%nat) ->
     0 <= calculateBM25Score JsString.wordTokens "cats" "cats purr" ["cats purr"]).
Proof.
  intros H.
  assert (Hneg : calculateBM25Score JsString.wordTokens "cats" "cats purr" ["cats purr"] < 0).
  { rewrite bm25_as_sum.
    change (JsString.wordTokens (JsString.toLowerCase "cats")) with ["cats"].
    change (JsString.wordTokens (JsString.toLowerCase "cats purr")) with ["cats"; "purr"].
    cbn [fold_left]. unfold contribution.
    change (docFreq "cats" ["cats purr"]) with 1%nat.
    change (termFreq "cats" ["cats"; "purr"]) with 1%nat.
    cbn [Nat.ltb Nat.leb List.length].
    assert (Hidf : idf ["cats purr"] 1 < 0).
    { unfold idf. apply ln_neg. cbn [List.length INR]. lra. }
    assert (Htf : 0 < tf 1 2 (avgDocLength ["cats purr"])).
    { unfold tf. apply Rdiv_lt_0_compat.
      - unfold k1. cbn [INR]. lra.
      - apply tf_denominator_pos, avgDocLength_nonneg. }
    nra. }
  apply (Rlt_not_le _ _ Hneg), H.
  intros term Hq _. vm_compute in Hq. destruct Hq as [<- | []].
  vm_compute. lia.
Qed.

Section CosineSimilarity.

Variable cosine : list R -> list R -> option R.
Variable cosine64 : list Float64.double -> list Float64.double -> option Float64.double.

(** What the code relies on when it writes [1 - cosine(vec1, vec2)] and
    calls its [catch] branch the manual calculation of the same value: if
    the package call returns at all, it returns the cosine distance of its
    arguments.  A call that raises satisfies this vacuously. *)
Hypothesis cosine_is_distance :
  forall (v w : list R) (distance : R),
    List.length v = List.length w ->
    cosine v w = Some distance -> distance = 1 - manualCosine v w.

Lemma cosineSimilarity_same_length (v w : list R) :
  List.length v = List.length w ->
  cosineSimilarity cosine (Some v) (Some w) = manualCosine v w.
Proof.
  intros Hlen. unfold cosineSimilarity.
  rewrite (proj2 (Nat.eqb_eq _ _) Hlen). cbn [negb].
  destruct (cosine v w) as [d|] eqn:Hc; [|reflexivity].
  rewrite (cosine_is_distance v w d Hlen Hc). lra.
Qed.

Lemma cosineSimilarity_mismatch (v w : list R) :
  List.length v <> List.length w ->
  cosineSimilarity cosine (Some v) (Some w) = 0.
Proof.
  intros Hlen. unfold cosineSimilarity.
  now rewrite (proj2 (Nat.eqb_neq _ _) Hlen).
Qed.

(** C5 (as the code has it).  In exact arithmetic [cosineSimilarity]
    returns a value in [[-1, 1]] for every pair of arguments, and exactly 0
    when a vector is absent, when a vector is empty and when the lengths
    differ; a raising package call is caught and the value computed by
    hand.  In the doubles the code computes with, the result is exactly 0
    when a vector is absent or the lengths differ, whatever the package
    does; a raising package call is caught there as well, and two empty
    vectors then give exactly 0.  The function returns in every case. *)
Theorem cosineSimilarity_bounded (vec1 vec2 : option (list R)) :
  -1 <= cosineSimilarity cosine vec1 vec2 <= 1 /\
  (vec1 = None \/ vec2 = None \/ vec1 = Some [] \/ vec2 = Some [] \/
   (exists v w, vec1 = Some v /\ vec2 = Some w /\ List.length v <> List.length w) ->
   cosineSimilarity cosine vec1 vec2 = 0) /\
  (forall v w, cosine v w = None -> List.length v = List.length w ->
     cosineSimilarity cosine (Some v) (Some w) = manualCosine v w) /\
  (forall d1 d2 : option (list Float64.double),
     d1 = None \/ d2 = None \/
     (exists v w, d1 = Some v /\ d2 = Some w /\ List.length v <> List.length w) ->
     Scoring64.cosineSimilarity cosine64 d1 d2 = Float64.zero) /\
  (forall v w : list Float64.double,
     cosine64 v w = None -> List.length v = List.length w ->
     Scoring64.cosineSimilarity cosine64 (Some v) (Some w) = Scoring64.manualCosine v w) /\
  Scoring64.manualCosine [] [] = Float64.zero.
Proof.
  split; [|split; [|split; [|split; [|split]]]].
  - destruct vec1 as [v|], vec2 as [w|]; try (cbn; lra).
    destruct (Nat.eq_dec (List.length v) (List.length w)) as [E|E].
    + rewrite (cosineSimilarity_same_length v w E). apply manualCosine_bounds.
    + rewrite (cosineSimilarity_mismatch v w E). lra.
  - intros [H | [H | [H | [H | (v & w & H1 & H2 & Hlen)]]]]; subst.
    + reflexivity.
    + destruct vec1; reflexivity.
    + destruct vec2 as [w|]; [|reflexivity].
      destruct (Nat.eq_dec (List.length (@nil R)) (List.length w)) as [E|E].
      * rewrite (cosineSimilarity_same_length [] w E). apply manualCosine_nil_l.
      * now apply cosineSimilarity_mismatch.
    + destruct vec1 as [v|]; [|reflexivity].
      destruct (Nat.eq_dec (List.length v) (List.length (@nil R))) as [E|E].
      * rewrite (cosineSimilarity_same_length v [] E).
        destruct v; [apply manualCosine_nil_l | discriminate].
      * now apply cosineSimilarity_mismatch.
    + now apply cosineSimilarity_mismatch.
  - intros v w Hc Hlen. now apply cosineSimilarity_same_length.
  - intros d1 d2 [-> | [-> | (v & w & -> & -> & Hlen)]].
    + reflexivity.
    + now destruct d1.
    + unfold Scoring64.cosineSimilarity.
      now rewrite (proj2 (Nat.eqb_neq _ _) Hlen).
  - intros v w Hc Hlen. unfold Scoring64.cosineSimilarity.
    now rewrite (proj2 (Nat.eqb_eq _ _) Hlen), Hc.
  - reflexivity.
Qed.

End CosineSimilarity.

(** The binding as the server module gets it: calling it raises. *)
Lemma cosineSimilarity_bounded_witness :
  -1 <= cosineSimilarity Examples.cosineRaises (Some [3; 4]) (Some [4; 3]) <= 1 /\
  cosineSimilarity Examples.cosineRaises (Some []) (Some []) = 0 /\
  cosineSimilarity Examples.cosineRaises (Some [3; 4]) (Some [1]) = 0 /\
  Scoring64.cosineSimilarity Examples.cosineRaises64 (Some Examples.ones)
    (Some [Float64.one])
  = Float64.zero.
Proof.
  assert (Hc : forall (v w : list R) (distance : R),
             List.length v = List.length w ->
             Examples.cosineRaises v w = Some distance ->
             distance = 1 - manualCosine v w) by discriminate.
  split; [|split; [|split]].
  - apply (cosineSimilarity_bounded Examples.cosineRaises Examples.cosineRaises64 Hc).
  - apply (cosineSimilarity_bounded Examples.cosineRaises Examples.cosineRaises64 Hc).
    auto.
  - apply (cosineSimilarity_bounded Examples.cosineRaises Examples.cosineRaises64 Hc).
    do 4 right. exists [3; 4], [1]. repeat split. discriminate.
  - destruct (cosineSimilarity_bounded Examples.cosineRaises Examples.cosineRaises64 Hc
                None None) as (_ & _ & _ & H64 & _).
    apply H64. do 2 right. exists Examples.ones, [Float64.one].
    split; [reflexivity|]. split; [reflexivity|]. discriminate.
Defined.

(** C5, as stated, fails in the doubles: the similarity of [[1, 1, 1]]
    with itself is [3 / 2.9999999999999996], the double just above 1, so
    the result is not in [[-1, 1]]. *)
Lemma cosineSimilarity_exceeds_one :
  let similarity :=
    Scoring64.cosineSimilarity Examples.cosineRaises64
      (Some Examples.ones) (Some Examples.ones) in
  similarity = S754_finite false 4503599627370497 (-52) /\
  ~ (Float64.leb (Float64.ofZ (-1)) similarity = true /\
     Float64.leb similarity Float64.one = true).
Proof.
  cbv zeta. split; [vm_compute; reflexivity|].
  intros [_ H]. vm_compute in H. discriminate H.
Qed.

(** When the sum of squares overflows, the quotient is [Infinity / Infinity]
    and the result is [NaN]: the similarity of [[1e200, 1e200]] with
    itself. *)
Lemma cosineSimilarity_overflow :
  Scoring64.cosineSimilarity Examples.cosineRaises64
    (Some Examples.huge) (Some Examples.huge)
  = S754_nan.
Proof. vm_compute. reflexivity. Qed.

End ScoringSpec.

(** ** Deduplication, sorting and truncation *)

Module RankerSpec.
Import Ranker.

Local Open Scope R_scope.

Lemma mapGet_Some (key : string) (m : ResultMap) (v : HybridResult) :
  mapGet key m = Some v -> In (key, v) m.
Proof.
  induction m as [|[k x] m IH]; cbn; [discriminate|].
  destruct (String.eqb k key) eqn:E.
  - apply String.eqb_eq in E. subst. intros [= ->]. now left.
  - intros H. right. now apply IH.
Qed.

Lemma mapGet_None (key : string) (m : ResultMap) :
  mapGet key m = None -> ~ In key (List.map fst m).
Proof.
  induction m as [|[k x] m IH]; cbn; [tauto|].
  destruct (String.eqb k key) eqn:E; [discriminate|].
  apply String.eqb_neq in E. intros H [Hk | Hin]; [congruence|]. now apply IH.
Qed.

Lemma mapSet_keys_present (key : string) (v : HybridResult) (m : ResultMap) :
  In key (List.map fst m) -> List.map fst (mapSet key v m) = List.map fst m.
Proof.
  induction m as [|[k x] m IH]; cbn; [tauto|].
  destruct (String.eqb k key) eqn:E; [reflexivity|].
  apply String.eqb_neq in E. intros [Hk | Hin]; [congruence|].
  cbn. now rewrite IH.
Qed.

Lemma mapSet_keys_absent (key : string) (v : HybridResult) (m : ResultMap) :
  ~ In key (List.map fst m) -> List.map fst (mapSet key v m) = List.map fst m ++ [key].
Proof.
  induction m as [|[k x] m IH]; cbn; [reflexivity|].
  intros Hnot. destruct (String.eqb k key) eqn:E.
  - apply String.eqb_eq in E. tauto.
  - cbn. rewrite IH; tauto.
Qed.

Lemma NoDup_snoc {A} (l : list A) (x : A) :
  NoDup l -> ~ In x l -> NoDup (l ++ [x]).
Proof.
  induction l as [|y l IH]; cbn; intros Hnd Hx.
  - constructor; [intros [] | constructor].
  - inversion Hnd as [|? ? Hy Hnd']; subst. constructor.
    + intros Hin. apply in_app_or in Hin as [Hin | [-> | []]]; tauto.
    + apply IH; tauto.
Qed.

Lemma entry_key (m : ResultMap) (k : string) (v : HybridResult) :
  In (k, v) m -> In k (List.map fst m).
Proof. intros H. apply (in_map fst) in H. exact H. Qed.

(** Keys are unique, so a key has one value. *)
Lemma entries_functional (m : ResultMap) (k : string) (v v' : HybridResult) :
  NoDup (List.map fst m) -> In (k, v) m -> In (k, v') m -> v = v'.
Proof.
  induction m as [|[k0 x] m IH]; cbn; [tauto|]. intros Hnd H1 H2.
  inversion Hnd as [|? ? Hk Hnd']; subst.
  destruct H1 as [H1 | H1], H2 as [H2 | H2].
  - congruence.
  - exfalso. injection H1 as -> ->. eauto using entry_key.
  - exfalso. injection H2 as -> ->. eauto using entry_key.
  - now apply IH.
Qed.

(** An entry of the map after [set] is the new one or an old one under
    another key. *)
Lemma mapSet_entries (key : string) (v : HybridResult) (m : ResultMap)
    (k' : string) (v' : HybridResult) :
  NoDup (List.map fst m) ->
  In (k', v') (mapSet key v m) ->
  (k' = key /\ v' = v) \/ (k' <> key /\ In (k', v') m).
Proof.
  induction m as [|[k x] m IH]; cbn; intros Hnd.
  - intros [[= <- <-] | []]. now left.
  - inversion Hnd as [|? ? Hk Hnd']; subst.
    destruct (String.eqb k key) eqn:E.
    + apply String.eqb_eq in E. subst k. intros [[= <- <-] | Hin]; [now left|].
      right. split; [|now right].
      intros ->. eauto using entry_key.
    + apply String.eqb_neq in E. intros [[= <- <-] | Hin].
      * right. split; [exact E | now left].
      * destruct (IH Hnd' Hin) as [? | [? ?]]; [now left | right; split; auto].
Qed.

Lemma mapSet_keys_incl (key : string) (v : HybridResult) (m : ResultMap) (k : string) :
  In k (List.map fst m) \/ k = key -> In k (List.map fst (mapSet key v m)).
Proof.
  induction m as [|[k0 x] m IH]; cbn.
  - intros [[] | ->]. now left.
  - destruct (String.eqb k0 key) eqn:E; cbn.
    + apply String.eqb_eq in E. subst. intuition.
    + intros [[-> | H] | ->]; [now left | right; apply IH; now left | right; apply IH; now right].
Qed.

Lemma bestFor_more (seen : list HybridResult) (v c : HybridResult) :
  bestFor seen v ->
  (id (chunk c) = id (chunk v) -> hybridScore c <= hybridScore v) ->
  bestFor (seen ++ [c]) v.
Proof.
  intros [Hin Hbest] Hc. split.
  - apply in_or_app. now left.
  - intros c' Hin' Hid. apply in_app_or in Hin' as [Hin' | [<- | []]]; auto.
Qed.

Lemma bestFor_new (seen : list HybridResult) (c : HybridResult) :
  (forall c', In c' seen -> id (chunk c') = id (chunk c) ->
     hybridScore c' <= hybridScore c) ->
  bestFor (seen ++ [c]) c.
Proof.
  intros H. split.
  - apply in_or_app. right. now left.
  - intros c' Hin Hid. apply in_app_or in Hin as [Hin | [<- | []]]; [auto | lra].
Qed.

Lemma keepBest_invariant (seen : list HybridResult) (m : ResultMap) (c : HybridResult) :
  uniqueInvariant seen m -> uniqueInvariant (seen ++ [c]) (keepBest m c).
Proof.
  intros (Hnd & Hall & Hentries). unfold keepBest. cbv zeta.
  destruct (mapGet (id (chunk c)) m) as [kept|] eqn:Hget.
  - apply mapGet_Some in Hget. destruct (Hentries _ _ Hget) as [Hkid [Hkin Hkmax]].
    destruct (Rlt_dec (hybridScore kept) (hybridScore c)) as [Hlt | Hge].
    + assert (Hkeys : List.map fst (mapSet (id (chunk c)) c m) = List.map fst m)
        by eauto using mapSet_keys_present, entry_key.
      split; [|split].
      * now rewrite Hkeys.
      * rewrite Hkeys. intros c' Hin. apply in_app_or in Hin as [Hin | [<- | []]];
          eauto using entry_key.
      * intros k v Hin. apply mapSet_entries in Hin as [[-> ->] | [Hne Hin]]; [| |exact Hnd].
        -- split; [reflexivity|]. apply bestFor_new. intros c' Hin' Hid.
           specialize (Hkmax c' Hin'). rewrite Hkid in Hkmax. specialize (Hkmax Hid). lra.
        -- destruct (Hentries _ _ Hin) as [Hid Hbest]. split; [exact Hid|].
           apply bestFor_more; [exact Hbest|]. congruence.
    + split; [exact Hnd|]. split.
      * intros c' Hin. apply in_app_or in Hin as [Hin | [<- | []]];
          eauto using entry_key.
      * intros k v Hin.
        destruct (Hentries _ _ Hin) as [Hid Hbest]. split; [exact Hid|].
        apply bestFor_more; [exact Hbest|]. intros Hsame.
        assert (v = kept) as ->.
        { apply (entries_functional m k); [exact Hnd | exact Hin |].
          replace k with (id (chunk c)) by congruence. exact Hget. }
        lra.
  - apply mapGet_None in Hget. split; [|split].
    + rewrite mapSet_keys_absent by exact Hget.
      now apply NoDup_snoc.
    + intros c' Hin. apply mapSet_keys_incl.
      apply in_app_or in Hin as [Hin | [<- | []]]; [left; auto | now right].
    + intros k v Hin. apply mapSet_entries in Hin as [[-> ->] | [Hne Hin]]; [| |exact Hnd].
      * split; [reflexivity|]. apply bestFor_new. intros c' Hin' Hid.
        exfalso. apply Hget. rewrite <- Hid. now apply Hall.
      * destruct (Hentries _ _ Hin) as [Hid Hbest]. split; [exact Hid|].
        apply bestFor_more; [exact Hbest|]. congruence.
Qed.

Lemma deduplicate_from (l seen : list HybridResult) (m : ResultMap) :
  uniqueInvariant seen m -> uniqueInvariant (seen ++ l) (fold_left keepBest l m).
Proof.
  revert seen m. induction l as [|c l IH]; intros seen m Hinv; cbn.
  - now rewrite app_nil_r.
  - replace (seen ++ c :: l) with ((seen ++ [c]) ++ l) by now rewrite <- app_assoc.
    apply IH. now apply keepBest_invariant.
Qed.

Lemma deduplicate_invariant (hybridResults : list HybridResult) :
  uniqueInvariant hybridResults (deduplicate hybridResults).
Proof.
  apply (deduplicate_from hybridResults [] []).
  split; [constructor|]. split; [intros ? []| intros ? ? []].
Qed.

(** *** Sorting *)

Lemma insertByScore_perm (x : HybridResult) (l : list HybridResult) :
  Permutation (insertByScore x l) (x :: l).
Proof.
  induction l as [|y l IH]; cbn; [reflexivity|].
  destruct (Rlt_dec (hybridScore x) (hybridScore y)); [|reflexivity].
  rewrite IH. apply perm_swap.
Qed.


Lemma sortByScore_perm (l : list HybridResult) : Permutation (sortByScore l) l.
Proof.
  induction l as [|x l IH]; cbn; [reflexivity|].
  rewrite insertByScore_perm. now constructor.
Qed.


(** *** Truncation *)

Lemma slice0_nonneg {A} (n : Z) (l : list A) :
  (0 <= n)%Z -> slice0 n l = firstn (Z.to_nat n) l.
Proof.
  intros Hn. unfold slice0. destruct (Z.ltb_spec n 0); [lia | reflexivity].
Qed.




(** *** The ranked list *)

Lemma values_ids (seen : list HybridResult) (m : ResultMap) :
  uniqueInvariant seen m ->
  List.map (fun r => id (chunk r)) (mapValues m) = List.map fst m.
Proof.
  intros (_ & _ & Hentries). unfold mapValues. rewrite List.map_map.
  apply List.map_ext_in. intros [k v] Hin. cbn. now apply Hentries.
Qed.



Section WithLibraries.

Variable cosine : list R -> list R -> option R.
Variable tokenize : string -> list string.

Lemma in_hybridRetrieval (embedded : list (string * option (list R)))
    (allChunks : list Chunk) (r : HybridResult) :
  In r (hybridRetrieval cosine tokenize embedded allChunks) <->
  exists qv c, In qv embedded /\ In c allChunks /\
    r = scoreChunk cosine tokenize (List.map content allChunks) (fst qv) (snd qv) c.
Proof.
  unfold hybridRetrieval. cbv zeta. rewrite in_flat_map. split.
  - intros (qv & Hqv & Hin). apply in_map_iff in Hin as (c & <- & Hc). eauto.
  - intros (qv & c & Hqv & Hc & ->). exists qv. split; [exact Hqv|].
    apply in_map_iff. eauto.
Qed.


End WithLibraries.


End RankerSpec.

(** ** The cache key of the [/query] route *)

Module CacheKeySpec.
Import CacheKey.

Lemma triple_induction (P : string -> Prop) :
  P EmptyString ->
  (forall x, P (String x EmptyString)) ->
  (forall x y, P (String x (String y EmptyString))) ->
  (forall x y z rest, P rest -> P (String x (String y (String z rest)))) ->
  forall s, P s.
Proof.
  intros H0 H1 H2 H3 s.
  assert (H : P s /\ (forall x, P (String x s)) /\ (forall x y, P (String x (String y s)))).
  { induction s as [|z s (IH0 & IH1 & IH2)]; [now auto|].
    split; [apply IH1|]. split; [intros x; apply IH2|]. intros x y. now apply H3. }
  apply H.
Qed.

Lemma sextet_inj (n m : nat) :
  (n < 64)%nat -> (m < 64)%nat -> sextet n = sextet m -> n = m.
Proof.
  intros Hn Hm E.
  assert (H : forallb
                (fun n => forallb
                   (fun m => implb (Ascii.eqb (sextet n) (sextet m)) (Nat.eqb n m))
                   (seq 0 64))
                (seq 0 64) = true) by (vm_compute; reflexivity).
  rewrite forallb_forall in H. specialize (H n). rewrite forallb_forall in H.
  assert (Hin : In n (seq 0 64)) by (apply in_seq; lia).
  assert (Him : In m (seq 0 64)) by (apply in_seq; lia).
  specialize (H Hin m Him). rewrite E, Ascii.eqb_refl in H. cbn in H.
  now apply Nat.eqb_eq.
Qed.

Lemma sextet_not_pad (n : nat) : (n < 64)%nat -> sextet n <> pad.
Proof.
  intros Hn E.
  assert (H : forallb (fun n => negb (Ascii.eqb (sextet n) pad)) (seq 0 64) = true)
    by (vm_compute; reflexivity).
  rewrite forallb_forall in H.
  assert (Hin : In n (seq 0 64)) by (apply in_seq; lia).
  specialize (H n Hin). rewrite E, Ascii.eqb_refl in H. discriminate.
Qed.

Lemma nat_of_ascii_inj (x y : ascii) : nat_of_ascii x = nat_of_ascii y -> x = y.
Proof.
  intros H. rewrite <- (ascii_nat_embedding x), <- (ascii_nat_embedding y). now rewrite H.
Qed.

Ltac divmod a k :=
  let q := fresh "q" in
  let r := fresh "r" in
  pose proof (Nat.div_mod_eq a k);
  pose proof (Nat.mod_upper_bound a k ltac:(lia));
  set (q := (a / k)%nat) in *; set (r := (a mod k)%nat) in *.

Ltac byte_facts x :=
  pose proof (nat_ascii_bounded x);
  divmod (nat_of_ascii x) 4%nat; divmod (nat_of_ascii x) 16%nat;
  divmod (nat_of_ascii x) 64%nat.

(** The sextets read off one, two or three bytes determine the bytes. *)
Lemma sextets_of_byte (x x' : ascii) :
  let a := nat_of_ascii x in
  let a' := nat_of_ascii x' in
  sextet (a / 4) = sextet (a' / 4) ->
  sextet (a mod 4 * 16) = sextet (a' mod 4 * 16) ->
  x = x'.
Proof.
  cbv zeta. intros E1 E2. apply nat_of_ascii_inj.
  byte_facts x. byte_facts x'.
  apply sextet_inj in E1; [|lia|lia]. apply sextet_inj in E2; [|lia|lia]. lia.
Qed.

Lemma sextets_of_two_bytes (x y x' y' : ascii) :
  let a := nat_of_ascii x in
  let b := nat_of_ascii y in
  let a' := nat_of_ascii x' in
  let b' := nat_of_ascii y' in
  sextet (a / 4) = sextet (a' / 4) ->
  sextet (a mod 4 * 16 + b / 16) = sextet (a' mod 4 * 16 + b' / 16) ->
  sextet (b mod 16 * 4) = sextet (b' mod 16 * 4) ->
  x = x' /\ y = y'.
Proof.
  cbv zeta. intros E1 E2 E3.
  byte_facts x. byte_facts x'. byte_facts y. byte_facts y'.
  apply sextet_inj in E1; [|lia|lia]. apply sextet_inj in E2; [|lia|lia].
  apply sextet_inj in E3; [|lia|lia].
  split; apply nat_of_ascii_inj; lia.
Qed.

Lemma sextets_of_three_bytes (x y z x' y' z' : ascii) :
  let a := nat_of_ascii x in
  let b := nat_of_ascii y in
  let c := nat_of_ascii z in
  let a' := nat_of_ascii x' in
  let b' := nat_of_ascii y' in
  let c' := nat_of_ascii z' in
  sextet (a / 4) = sextet (a' / 4) ->
  sextet (a mod 4 * 16 + b / 16) = sextet (a' mod 4 * 16 + b' / 16) ->
  sextet (b mod 16 * 4 + c / 64) = sextet (b' mod 16 * 4 + c' / 64) ->
  sextet (c mod 64) = sextet (c' mod 64) ->
  x = x' /\ y = y' /\ z = z'.
Proof.
  cbv zeta. intros E1 E2 E3 E4.
  byte_facts x. byte_facts x'. byte_facts y. byte_facts y'.
  byte_facts z. byte_facts z'.
  apply sextet_inj in E1; [|lia|lia]. apply sextet_inj in E2; [|lia|lia].
  apply sextet_inj in E3; [|lia|lia]. apply sextet_inj in E4; [|lia|lia].
  repeat split; apply nat_of_ascii_inj; lia.
Qed.

Ltac pad_clash :=
  match goal with
  | H : pad = sextet ?n |- _ =>
      exfalso; apply (sextet_not_pad n); [|now symmetry]
  | H : sextet ?n = pad |- _ =>
      exfalso; apply (sextet_not_pad n); [|assumption]
  end;
  repeat match goal with
  | |- context [nat_of_ascii ?x] =>
      lazymatch goal with
      | _ : (nat_of_ascii x < 256)%nat |- _ => fail
      | _ => byte_facts x
      end
  end; lia.

(** The encoding is injective. *)
Lemma base64_inj (s1 s2 : string) : base64 s1 = base64 s2 -> s1 = s2.
Proof.
  revert s2. induction s1 as [|x|x y|x y z rest IH] using triple_induction;
    intros [|x' [|y' [|z' rest']]] H; cbn [base64] in H; cbv zeta in H;
    try discriminate H; try reflexivity.
  - injection H as E1 E2. now rewrite (sextets_of_byte x x').
  - injection H as E1 E2 E3. pad_clash.
  - injection H as E1 E2 E3 E4. pad_clash.
  - injection H as E1 E2 E3. pad_clash.
  - injection H as E1 E2 E3.
    now destruct (sextets_of_two_bytes x y x' y' E1 E2 E3) as [-> ->].
  - injection H as E1 E2 E3 E4. pad_clash.
  - injection H as E1 E2 E3 E4. pad_clash.
  - injection H as E1 E2 E3 E4. pad_clash.
  - injection H as E1 E2 E3 E4 E5.
    destruct (sextets_of_three_bytes x y z x' y' z' E1 E2 E3 E4) as (-> & -> & ->).
    now rewrite (IH rest').
Qed.

(** Two keys are equal exactly when the encoded bytes are. *)
Lemma cacheKeyOf_bytes (units1 units2 : list N) :
  cacheKeyOf units1 = cacheKeyOf units2 <-> utf8 units1 = utf8 units2.
Proof.
  unfold cacheKeyOf. split.
  - intros H. cbn in H. injection H as H. now apply base64_inj.
  - now intros ->.
Qed.

(** Different texts can have the same bytes: a surrogate without its
    partner is encoded as U+FFFD, whichever surrogate it is. *)
Lemma unpaired_surrogates_share_a_key :
  [55296%N] <> [56320%N] /\ cacheKeyOf [55296%N] = cacheKeyOf [56320%N].
Proof. split; [discriminate | reflexivity]. Qed.

End CacheKeySpec.

(** ** Query expansion and the empty-corpus path of the [/query] route *)

Module ServerSpec.
Import Server.

Section WithServices.

Variable cosine : list R -> list R -> option R.
Variable tokenize : string -> list string.
Variable terms : string -> list string.
Variable Body : Type.
Variable validate : Body -> string + CacheKey.QueryRequest.
Variable generateContent : string -> outcome GenerationResponse.
Variable embedContent : string -> outcome (option (list R)).
Variable clock : nat -> Z.

(** One run of the expansion: it returns, it makes exactly one call, and
    what it returns starts with the original question. *)
Lemma generateMultipleQueries_run
    (originalQuery : string) (numQueries : Z) (st : State) :
  exists queries : list string,
    generateMultipleQueries generateContent originalQuery numQueries st
    = (Returned queries,
       {| cache := cache st; metrics := metrics st; clockReads := clockReads st;
          trace := trace st
                   ++ [GenerateContent (expansionPrompt originalQuery numQueries)] |}) /\
    hd_error queries = Some originalQuery /\
    ((forall response,
        generateContent (expansionPrompt originalQuery numQueries) = Returned response ->
        text response = None) ->
     queries = [originalQuery]).
Proof.
  unfold generateMultipleQueries, tryCatch, callGenerateContent, bind, emit, fromOutcome.
  cbv zeta.
  destruct (generateContent (expansionPrompt originalQuery numQueries))
    as [response | message] eqn:Hgen.
  - destruct (text response) as [generatedText|] eqn:Htext.
    + exists (originalQuery :: parseQueries generatedText numQueries).
      repeat split. intros Hfail. specialize (Hfail response eq_refl). congruence.
    + exists [originalQuery]. repeat split.
  - exists [originalQuery]. repeat split.
Qed.

(** C3.  For every question and every behaviour of the generation call,
    [generateMultipleQueries] returns (it never raises) a list whose first
    element is the original question, hence of length at least 1; when the
    call raises, or reading its text raises, the list is exactly the
    original question. *)
Theorem generateMultipleQueries_keeps_original
    (originalQuery : string) (numQueries : Z) (st : State) :
  exists queries : list string,
    fst (generateMultipleQueries generateContent originalQuery numQueries st)
    = Returned queries /\
    hd_error queries = Some originalQuery /\
    (1 <= List.length queries)%nat /\
    ((forall response,
        generateContent (expansionPrompt originalQuery numQueries) = Returned response ->
        text response = None) ->
     queries = [originalQuery]).
Proof.
  destruct (generateMultipleQueries_run originalQuery numQueries st)
    as (queries & Hrun & Hhd & Hfail).
  exists queries. rewrite Hrun. repeat split; try assumption.
  destruct queries; [discriminate | cbn; lia].
Qed.

(** The vector the route scores a variation with. *)
Lemma retrieveAll_returns (allChunks : list Chunk) (queryVariations : list string)
    (vectors : list (option (list R))) (hybridResults : list Ranker.HybridResult)
    (st : State) :
  Forall2 (fun v vec => embedContent v = Returned vec) queryVariations vectors ->
  fst (retrieveAll cosine tokenize embedContent (List.map content allChunks) allChunks
         queryVariations hybridResults st)
  = Returned
      (hybridResults
       ++ Ranker.hybridRetrieval cosine tokenize (combine queryVariations vectors)
            allChunks).
Proof.
  intros Hall. revert hybridResults st.
  induction Hall as [|v vec vs vecs Hv Hall IH]; intros hybridResults st.
  - cbn. now rewrite app_nil_r.
  - cbn [retrieveAll]. unfold bind at 1, callEmbedContent, bind at 1, emit, fromOutcome.
    rewrite Hv. rewrite IH. cbn [combine]. unfold Ranker.hybridRetrieval.
    cbn [flat_map fst snd]. now rewrite <- app_assoc.
Qed.

(** A hit is answered from the cache: the stored fields with
    [cached = true] and a fresh [responseTime]; no collaborator is called
    and the hit is recorded. *)
Lemma cache_hit_is_served (storedChunks : outcome (list Chunk))
    (body : Body) (value : CacheKey.QueryRequest) (st : State)
    (cachedResult : QueryResult) :
  validate body = inr value ->
  lookupFresh (clock (S (clockReads st))) (CacheKey.cacheKey (CacheKey.question value))
    (cache st) = Some cachedResult ->
  exists (result : QueryResult) (st' : State),
    queryRoute cosine tokenize terms Body validate generateContent embedContent
      storedChunks clock body st
    = (Returned (Json result), st') /\
    answer result = answer cachedResult /\
    sources result = sources cachedResult /\
    cached result = true /\
    trace st' = trace st /\
    cache st' = cache st /\
    Metrics.totalQueries (metrics st') = (Metrics.totalQueries (metrics st) + 1)%Z.
Proof.
  intros Hvalid Hhit.
  unfold queryRoute, tryCatch, bind at 1, dateNow at 1. rewrite Hvalid. cbv zeta.
  unfold bind at 1, cacheGet, bind at 1, dateNow at 1.
  cbn [cache metrics clockReads trace]. rewrite Hhit.
  unfold bind, dateNow, recordQuery, ret. cbn [cache metrics clockReads trace].
  eexists _, _. split; [reflexivity|]. cbn. repeat split.
Qed.

(** C1 (what the code does).  The key is built from the question alone.
    Two keys are equal exactly when the UTF-8 encodings of the two
    questions are equal, so two validated requests for the same question
    share one key whatever their [maxResults] and [includeMetadata]; and a
    request that finds a live entry under its key is answered with the
    answer and the sources stored there, as they were cut for the request
    that wrote the entry, without any call to a collaborator. *)
Theorem cacheKey_ignores_parameters (storedChunks : outcome (list Chunk))
    (body : Body) (first second : CacheKey.QueryRequest) (st : State)
    (cachedResult : QueryResult) :
  CacheKey.question first = CacheKey.question second ->
  validate body = inr second ->
  (forall units1 units2 : list N,
     CacheKey.cacheKeyOf units1 = CacheKey.cacheKeyOf units2
     <-> CacheKey.utf8 units1 = CacheKey.utf8 units2) /\
  CacheKey.cacheKey (CacheKey.question first)
  = CacheKey.cacheKey (CacheKey.question second) /\
  (lookupFresh (clock (S (clockReads st))) (CacheKey.cacheKey (CacheKey.question first))
     (cache st) = Some cachedResult ->
   exists (result : QueryResult) (st' : State),
     queryRoute cosine tokenize terms Body validate generateContent embedContent
       storedChunks clock body st
     = (Returned (Json result), st') /\
     answer result = answer cachedResult /\
     sources result = sources cachedResult /\
     cached result = true /\
     trace st' = trace st).
Proof.
  intros Hsame Hvalid. split; [apply CacheKeySpec.cacheKeyOf_bytes|].
  split; [now rewrite Hsame|].
  rewrite Hsame. intros Hhit.
  destruct (cache_hit_is_served storedChunks body second st cachedResult Hvalid Hhit)
    as (result & st' & Hrun & Hanswer & Hsources & Hcached & Htrace & _).
  exists result, st'. auto.
Qed.

(** C4 (as the code has it).  For a valid request whose cache lookup
    misses, an empty chunk store makes the route answer with the
    no-documents text and no sources.  The calls made are, in order, the
    query-expansion call to the generation service, the store query and the
    session close: no answer-generation prompt and no embedding request is
    sent.  The metrics are left as they were. *)
Theorem empty_corpus_short_circuit
    (body : Body) (value : CacheKey.QueryRequest) (st : State) :
  validate body = inr value ->
  lookupFresh (clock (S (clockReads st))) (CacheKey.cacheKey (CacheKey.question value))
    (cache st) = None ->
  exists (result : QueryResult) (st' : State),
    queryRoute cosine tokenize terms Body validate generateContent embedContent
      (Returned []) clock body st
    = (Returned (Json result), st') /\
    answer result = noDocumentsAnswer /\
    sources result = [] /\
    hd_error (queryVariations result) = Some (CacheKey.question value) /\
    cached result = false /\
    trace st'
    = trace st ++ [GenerateContent (expansionPrompt (CacheKey.question value) 3);
                   RunCypher chunkQuery; CloseSession] /\
    metrics st' = metrics st.
Proof.
  intros Hvalid Hmiss.
  unfold queryRoute, tryCatch, bind at 1, dateNow at 1. rewrite Hvalid. cbv zeta.
  unfold bind at 1, cacheGet, bind at 1, dateNow at 1.
  cbn [cache metrics clockReads trace]. rewrite Hmiss.
  unfold bind at 1.
  set (st1 := {| cache := _; metrics := _; clockReads := _; trace := _ |}).
  destruct (generateMultipleQueries_run (CacheKey.question value) 3 st1)
    as (queries & Hrun & Hhd & _).
  rewrite Hrun.
  unfold finally, bind, emit, fromOutcome, dateNow, ret.
  cbn [cache metrics clockReads trace]. eexists _, _. split; [reflexivity|].
  cbn [answer sources queryVariations cached trace metrics].
  repeat split; [exact Hhd|]. subst st1. cbn [trace].
  now rewrite <- !app_assoc.
Qed.

End WithServices.

(** The failing input of C1: the cache holds the answer to a request for
    the cat question with one source and no metadata; the same question
    asked for ten results with metadata is answered with that one source. *)
Lemma cacheKey_ignores_parameters_witness :
  CacheKey.maxResults Examples.catRequest <> CacheKey.maxResults Examples.catRequestTen /\
  CacheKey.includeMetadata Examples.catRequest
  <> CacheKey.includeMetadata Examples.catRequestTen /\
  CacheKey.cacheKey (CacheKey.question Examples.catRequest)
  = CacheKey.cacheKey (CacheKey.question Examples.catRequestTen) /\
  exists (result : QueryResult) (st' : State),
    queryRoute Examples.cosineRaises JsString.wordTokens JsString.words Examples.Body
      Examples.validate Examples.generationService Examples.embeddingService
      (Returned Examples.petCorpus) Examples.clock Examples.catBodyTen
      Examples.seededState
    = (Returned (Json result), st') /\
    sources result = sources Examples.storedAnswer /\
    List.length (sources result) = 1%nat /\
    cached result = true.
Proof.
  destruct (cacheKey_ignores_parameters Examples.cosineRaises JsString.wordTokens
              JsString.words Examples.Body Examples.validate Examples.generationService
              Examples.embeddingService Examples.clock (Returned Examples.petCorpus)
              Examples.catBodyTen Examples.catRequest Examples.catRequestTen
              Examples.seededState Examples.storedAnswer eq_refl eq_refl)
    as (_ & Hkey & Hserved).
  split; [discriminate|]. split; [discriminate|]. split; [exact Hkey|].
  destruct Hserved as (result & st' & Hrun & _ & Hsources & Hcached & _).
  { vm_compute. reflexivity. }
  exists result, st'. split; [exact Hrun|]. split; [exact Hsources|].
  split; [now rewrite Hsources | exact Hcached].
Defined.

Lemma empty_corpus_short_circuit_witness :
  Examples.validate Examples.catBody = inr Examples.catRequest /\
  exists (result : QueryResult) (st' : State),
    queryRoute Examples.cosineRaises JsString.wordTokens JsString.words Examples.Body
      Examples.validate
      Examples.generationService Examples.embeddingService (Returned [])
      Examples.clock Examples.catBody Examples.freshState
    = (Returned (Json result), st') /\
    answer result = noDocumentsAnswer /\
    sources result = [].
Proof.
  split; [reflexivity|].
  destruct (empty_corpus_short_circuit Examples.cosineRaises JsString.wordTokens
              JsString.words Examples.Body Examples.validate Examples.generationService
              Examples.embeddingService Examples.clock
              Examples.catBody Examples.catRequest Examples.freshState
              eq_refl eq_refl)
    as (result & st' & Hrun & Hanswer & Hsources & _).
  exists result, st'. auto.
Defined.

(** C4, as stated, fails: with an empty store the route has already sent
    the query-expansion prompt to the generation service. *)
Lemma empty_corpus_calls_generation_service :
  let run :=
    queryRoute Examples.cosineRaises JsString.wordTokens JsString.words Examples.Body
      Examples.validate
      Examples.generationService Examples.embeddingService (Returned [])
      Examples.clock Examples.catBody Examples.freshState in
  ~ (forall e, In e (trace (snd run)) -> isGenerationCall e = false).
Proof.
  cbv zeta. intros H.
  specialize (H (GenerateContent (expansionPrompt "What is a cat?" 3))).
  discriminate H. vm_compute. now left.
Qed.

End ServerSpec.

(** ** Further facts about the running means *)

Module MetricsFacts.
Import Metrics.

Local Open Scope Q_scope.

Lemma total_between (ts : list Q) (lo hi : Q) :
  (forall t, In t ts -> lo <= t /\ t <= hi) ->
  inject_Z (Z.of_nat (List.length ts)) * lo <= total ts /\
  total ts <= inject_Z (Z.of_nat (List.length ts)) * hi.
Proof.
  induction ts as [|t ts IH]; intros H.
  - cbn. split; rewrite Qmult_0_l; apply Qle_refl.
  - destruct (H t (or_introl eq_refl)) as [Hlo Hhi].
    destruct IH as [IHlo IHhi]; [intros x Hx; apply H; now right|].
    cbn [List.length]. rewrite Nat2Z.inj_succ. unfold Z.succ.
    rewrite inject_Z_plus. change (total (t :: ts)) with (t + total ts).
    split.
    + setoid_replace ((inject_Z (Z.of_nat (List.length ts)) + inject_Z 1) * lo)
        with (lo + inject_Z (Z.of_nat (List.length ts)) * lo) using relation Qeq by ring.
      now apply Qplus_le_compat.
    + setoid_replace ((inject_Z (Z.of_nat (List.length ts)) + inject_Z 1) * hi)
        with (hi + inject_Z (Z.of_nat (List.length ts)) * hi) using relation Qeq by ring.
      now apply Qplus_le_compat.
Qed.

Lemma length_positive {A} (l : list A) :
  l <> [] -> 0 < inject_Z (Z.of_nat (List.length l)).
Proof.
  intros Hne. rewrite <- (Zlt_Qlt 0). destruct l; [congruence | cbn; lia].
Qed.

(** The average response time lies between any two bounds that hold for
    every recorded response time. *)
Theorem averageResponseTime_between (calls : list call) (lo hi : Q) :
  calls <> [] ->
  (forall c, In c calls -> lo <= responseTime c /\ responseTime c <= hi) ->
  lo <= averageResponseTime (after calls) /\ averageResponseTime (after calls) <= hi.
Proof.
  intros Hne Hall.
  pose proof (length_positive calls Hne) as Hpos.
  destruct (MetricsSpec.means_after calls) as (Ha & _).
  destruct (total_between (List.map responseTime calls) lo hi) as [Hlo Hhi].
  { intros t Ht. apply in_map_iff in Ht as (c & <- & Hc). now apply Hall. }
  rewrite length_map in Hlo, Hhi. rewrite <- Ha in Hlo, Hhi.
  split.
  - apply (Qmult_le_l _ _ _ Hpos). exact Hlo.
  - apply (Qmult_le_l _ _ _ Hpos). exact Hhi.
Qed.

Lemma averageResponseTime_between_witness :
  Examples.threeCalls <> [] /\
  (7 <= averageResponseTime (after Examples.threeCalls) /\
   averageResponseTime (after Examples.threeCalls) <= 500).
Proof.
  split; [discriminate|].
  apply averageResponseTime_between; [discriminate|].
  intros c [<- | [<- | [<- | []]]]; cbn; split; discriminate.
Defined.

Lemma total_permutation (ts ts' : list Q) : Permutation ts ts' -> total ts == total ts'.
Proof.
  induction 1 as [|x l l' _ IH|x y l|l l' l'' _ IH1 _ IH2]; cbn.
  - reflexivity.
  - now rewrite IH.
  - ring.
  - now rewrite IH1.
Qed.

Lemma count_permutation (p : call -> bool) (calls calls' : list call) :
  Permutation calls calls' -> count p calls = count p calls'.
Proof.
  intros H. unfold count. f_equal.
  induction H as [|x l l' _ IH|x y l|l l' l'' _ IH1 _ IH2]; cbn.
  - reflexivity.
  - destruct (p x); cbn; now rewrite IH.
  - destruct (p x), (p y); reflexivity.
  - now rewrite IH1.
Qed.

(** The three means do not depend on the order in which the same calls were
    recorded. *)
Theorem means_order_independent (calls calls' : list call) :
  Permutation calls calls' ->
  averageResponseTime (after calls) == averageResponseTime (after calls') /\
  cacheHitRate (after calls) == cacheHitRate (after calls') /\
  errorRate (after calls) == errorRate (after calls').
Proof.
  intros Hperm.
  destruct calls as [|c calls].
  { apply Permutation_nil in Hperm. subst. repeat split; reflexivity. }
  assert (Hne : c :: calls <> []) by discriminate.
  pose proof (length_positive _ Hne) as Hpos.
  destruct (MetricsSpec.means_after (c :: calls)) as (Ha & Hc & He).
  destruct (MetricsSpec.means_after calls') as (Ha' & Hc' & He').
  rewrite <- (Permutation_length Hperm) in Ha', Hc', He'.
  rewrite <- (total_permutation _ _ (Permutation_map responseTime Hperm)) in Ha'.
  rewrite <- (count_permutation cacheHit _ _ Hperm) in Hc'.
  rewrite <- (count_permutation error _ _ Hperm) in He'.
  assert (Hnz : ~ inject_Z (Z.of_nat (List.length (c :: calls))) == 0).
  { intros E. rewrite E in Hpos. discriminate. }
  repeat split.
  - apply (Qmult_inj_l _ _ _ Hnz). now rewrite Ha, Ha'.
  - apply (Qmult_inj_l _ _ _ Hnz). now rewrite Hc, Hc'.
  - apply (Qmult_inj_l _ _ _ Hnz). now rewrite He, He'.
Qed.

Lemma means_order_independent_witness :
  Permutation Examples.threeCalls (List.rev Examples.threeCalls) /\
  averageResponseTime (after Examples.threeCalls)
  == averageResponseTime (after (List.rev Examples.threeCalls)).
Proof.
  split; [apply Permutation_rev|].
  apply (means_order_independent _ _ (Permutation_rev Examples.threeCalls)).
Defined.

(** [averageRetrievalAccuracy] is reported but never written: it is 0 after
    any sequence of calls. *)
Lemma averageRetrievalAccuracy_never_updated (calls : list call) :
  averageRetrievalAccuracy (after calls) = 0.
Proof.
  induction calls as [|c calls IH] using rev_ind; [reflexivity|].
  rewrite MetricsSpec.after_snoc. exact IH.
Qed.

End MetricsFacts.

(** ** [chunkText] *)

Module ChunkingSpec.
Import Chunking.

Lemma append_cons (c : ascii) (s t : string) :
  (String c s ++ t)%string = String c (s ++ t)%string.
Proof. reflexivity. Qed.

Lemma append_empty_r (s : string) : (s ++ EmptyString)%string = s.
Proof. induction s as [|c s IH]; [reflexivity|]. now rewrite append_cons, IH. Qed.

Lemma concat_empty_cons (x : string) (xs : list string) :
  String.concat EmptyString (x :: xs) = (x ++ String.concat EmptyString xs)%string.
Proof.
  destruct xs as [|y xs]; cbn [String.concat]; [now rewrite append_empty_r | reflexivity].
Qed.

Lemma substring_nil (i k : nat) : String.substring i k EmptyString = EmptyString.
Proof. destruct i, k; reflexivity. Qed.

Lemma substring_zero_length (i : nat) (s : string) : String.substring i 0 s = EmptyString.
Proof.
  revert i. induction s as [|c s IH]; intros i; [apply substring_nil|].
  destruct i; [reflexivity | apply IH].
Qed.

Lemma substring_whole (s : string) : String.substring 0 (String.length s) s = s.
Proof. induction s as [|c s IH]; [reflexivity|]. cbn. now rewrite IH. Qed.

Lemma substring_past_end (i k : nat) (s : string) :
  (String.length s <= i)%nat -> String.substring i k s = EmptyString.
Proof.
  revert i. induction s as [|c s IH]; intros i Hi; [apply substring_nil|].
  destruct i; cbn in Hi; [lia|]. cbn. apply IH. lia.
Qed.

Lemma substring_length (i k : nat) (s : string) :
  String.length (String.substring i k s) = Nat.min k (String.length s - i).
Proof.
  revert i k. induction s as [|c s IH]; intros i k.
  - rewrite substring_nil. cbn. lia.
  - destruct i.
    + destruct k; [reflexivity|]. cbn. rewrite IH. rewrite Nat.sub_0_r. reflexivity.
    + cbn [String.substring String.length]. rewrite IH. reflexivity.
Qed.

(** A piece followed by the rest of the text is the text from the start of
    the piece on. *)
Lemma substring_split (i k : nat) (s : string) :
  (String.substring i k s
   ++ String.substring (i + k) (String.length s - (i + k)) s)%string
  = String.substring i (String.length s - i) s.
Proof.
  revert i k. induction s as [|c s IH]; intros i k.
  - now rewrite !substring_nil.
  - destruct i.
    + cbn [Nat.add]. rewrite Nat.sub_0_r, substring_whole.
      destruct k.
      * rewrite substring_zero_length, Nat.sub_0_r, substring_whole. reflexivity.
      * cbn [String.substring String.length Nat.sub]. rewrite append_cons. f_equal.
        specialize (IH 0%nat k). cbn [Nat.add] in IH.
        rewrite Nat.sub_0_r, substring_whole in IH. exact IH.
    + cbn [Nat.add String.substring String.length Nat.sub]. apply IH.
Qed.

Lemma div_ceil_step (n k : nat) :
  (1 <= k)%nat -> (1 <= n)%nat ->
  ((n + (k - 1)) / k = S ((n - k + (k - 1)) / k))%nat.
Proof.
  intros Hk Hn. destruct (Nat.le_gt_cases k n) as [Hle | Hlt].
  - replace (n + (k - 1))%nat with ((n - k + (k - 1)) + 1 * k)%nat by lia.
    rewrite Nat.div_add by lia. lia.
  - replace (n - k)%nat with 0%nat by lia. cbn [Nat.add].
    rewrite (Nat.div_small (k - 1) k) by lia.
    symmetry. apply (Nat.div_unique _ _ 1 (n - 1)); lia.
Qed.

Lemma chunkLoop_done (fuel : nat) (text : string) (chunkSize i : nat)
    (chunks : list string) :
  (String.length text <= i)%nat ->
  chunkLoop fuel text chunkSize i chunks = Some chunks.
Proof.
  intros H. apply Nat.ltb_ge in H. destruct fuel; cbn [chunkLoop]; now rewrite H.
Qed.

Lemma chunkLoop_step (fuel : nat) (text : string) (chunkSize i : nat)
    (chunks : list string) :
  (i < String.length text)%nat ->
  chunkLoop (S fuel) text chunkSize i chunks
  = chunkLoop fuel text chunkSize (i + chunkSize)
      (chunks ++ [String.substring i chunkSize text]).
Proof. intros H. apply Nat.ltb_lt in H. cbn [chunkLoop]. now rewrite H. Qed.

Section Loop.

Variable text : string.
Variable chunkSize : nat.
Hypothesis chunkSize_positive : (1 <= chunkSize)%nat.

(** What the loop appends from position [i] on, whatever it started with,
    once the iteration bound is at least the number of characters left. *)
Lemma chunkLoop_from (n i : nat) :
  (String.length text - i <= n)%nat ->
  exists pieces : list string,
    (forall fuel chunks, (n <= fuel)%nat ->
       chunkLoop fuel text chunkSize i chunks = Some (chunks ++ pieces)) /\
    String.concat EmptyString pieces
    = String.substring i (String.length text - i) text /\
    Forall (fun c => (1 <= String.length c <= chunkSize)%nat) pieces /\
    Forall (fun c => String.length c = chunkSize) (removelast pieces) /\
    List.length pieces = ((String.length text - i + (chunkSize - 1)) / chunkSize)%nat.
Proof.
  revert i. induction n as [|n IH]; intros i Hn.
  - exists []. repeat split.
    + intros fuel chunks _. rewrite app_nil_r. apply chunkLoop_done. lia.
    + replace (String.length text - i)%nat with 0%nat by lia.
      now rewrite substring_zero_length.
    + constructor.
    + constructor.
    + replace (String.length text - i)%nat with 0%nat by lia. cbn [Nat.add List.length].
      symmetry. apply Nat.div_small. lia.
  - destruct (Nat.ltb_spec i (String.length text)) as [Hlt | Hge].
    + destruct (IH (i + chunkSize)%nat) as (rest & Hrun & Hcat & Hall & Hfull & Hcount); [lia|].
      exists (String.substring i chunkSize text :: rest). repeat split.
      * intros fuel chunks Hfuel. destruct fuel as [|fuel]; [lia|].
        rewrite chunkLoop_step by exact Hlt.
        rewrite Hrun by lia. now rewrite <- app_assoc.
      * rewrite concat_empty_cons, Hcat. apply substring_split.
      * constructor; [|exact Hall]. rewrite substring_length. lia.
      * destruct rest as [|r rest]; [constructor|].
        cbn [removelast]. constructor; [|exact Hfull].
        rewrite substring_length.
        assert (i + chunkSize < String.length text)%nat; [|lia].
        destruct (Nat.le_gt_cases (String.length text) (i + chunkSize)) as [Hle|]; [|assumption].
        exfalso. replace (String.length text - (i + chunkSize))%nat with 0%nat in Hcount by lia.
        cbn [Nat.add] in Hcount. rewrite Nat.div_small in Hcount by lia. discriminate.
      * cbn [List.length]. rewrite Hcount.
        replace (String.length text - (i + chunkSize))%nat
          with (String.length text - i - chunkSize)%nat by lia.
        symmetry. apply div_ceil_step; lia.
    + exists []. repeat split.
      * intros fuel chunks _. rewrite app_nil_r. apply chunkLoop_done. lia.
      * replace (String.length text - i)%nat with 0%nat by lia.
        now rewrite substring_zero_length.
      * constructor.
      * constructor.
      * replace (String.length text - i)%nat with 0%nat by lia. cbn [Nat.add List.length].
        symmetry. apply Nat.div_small. lia.
Qed.

End Loop.

(** With a chunk size of at least 1 the loop ends (the text length bounds
    its iterations) and the chunks, joined, give back the text. *)
Theorem chunkText_reassembles (text : string) (chunkSize : option nat) :
  (1 <= default 1000 chunkSize)%nat ->
  exists chunks : list string,
    (forall fuel, (String.length text <= fuel)%nat ->
       chunkText fuel text chunkSize = Some chunks) /\
    String.concat EmptyString chunks = text.
Proof.
  intros Hk.
  destruct (chunkLoop_from text (default 1000%nat chunkSize) Hk (String.length text) 0)
    as (pieces & Hrun & Hcat & _); [lia|].
  exists pieces. split.
  - intros fuel Hfuel. unfold chunkText. now rewrite Hrun.
  - rewrite Hcat, Nat.sub_0_r. apply substring_whole.
Qed.

Lemma chunkText_reassembles_witness :
  (1 <= default 1000 (Some 4))%nat /\
  exists chunks : list string,
    chunkText 10 "0123456789" (Some 4%nat) = Some chunks /\
    String.concat EmptyString chunks = "0123456789".
Proof.
  split; [cbn; lia|].
  destruct (chunkText_reassembles "0123456789" (Some 4%nat)) as (chunks & Hrun & Hcat);
    [cbn; lia|].
  exists chunks. split; [apply Hrun; cbn; lia | exact Hcat].
Defined.

(** With a chunk size of at least 1: no chunk is empty or longer than the
    chunk size, every chunk but the last has exactly the chunk size, and
    there are ceil(length / chunkSize) chunks. *)
Theorem chunkText_sizes (text : string) (chunkSize : option nat) :
  (1 <= default 1000 chunkSize)%nat ->
  exists chunks : list string,
    (forall fuel, (String.length text <= fuel)%nat ->
       chunkText fuel text chunkSize = Some chunks) /\
    Forall (fun c => (1 <= String.length c <= default 1000 chunkSize)%nat) chunks /\
    Forall (fun c => String.length c = default 1000%nat chunkSize) (removelast chunks) /\
    List.length chunks
    = ((String.length text + (default 1000 chunkSize - 1)) / default 1000 chunkSize)%nat.
Proof.
  intros Hk.
  destruct (chunkLoop_from text (default 1000%nat chunkSize) Hk (String.length text) 0)
    as (pieces & Hrun & _ & Hall & Hfull & Hcount); [lia|].
  exists pieces. rewrite Nat.sub_0_r in Hcount. repeat split; try assumption.
  intros fuel Hfuel. unfold chunkText. now rewrite Hrun.
Qed.

Lemma chunkText_sizes_witness :
  (1 <= default 1000 (Some 4))%nat /\
  exists chunks : list string,
    chunkText 10 "0123456789" (Some 4%nat) = Some chunks /\
    Forall (fun c => (1 <= String.length c <= 4)%nat) chunks /\
    List.length chunks = 3%nat.
Proof.
  split; [cbn; lia|].
  destruct (chunkText_sizes "0123456789" (Some 4%nat))
    as (chunks & Hrun & Hall & _ & Hcount); [cbn; lia|].
  exists chunks. repeat split; [apply Hrun; cbn; lia | exact Hall | exact Hcount].
Defined.

(** The two edge cases: an empty text gives no chunk whatever the chunk
    size, and a chunk size of 0 on a non-empty text never leaves the loop:
    every iteration bound is reached. *)
Theorem chunkText_edge_cases (text : string) :
  (text = EmptyString ->
   forall fuel chunkSize, chunkText fuel text chunkSize = Some []) /\
  (text <> EmptyString ->
   forall fuel, chunkText fuel text (Some 0%nat) = None).
Proof.
  split.
  - intros -> fuel chunkSize. unfold chunkText. apply chunkLoop_done. cbn. lia.
  - intros Hne fuel. unfold chunkText. cbn [default]. generalize (@nil string).
    assert (Hlen : (0 < String.length text)%nat) by (destruct text; [congruence | cbn; lia]).
    induction fuel as [|fuel IH]; intros chunks.
    + cbn [chunkLoop]. now rewrite (proj2 (Nat.ltb_lt _ _) Hlen).
    + rewrite chunkLoop_step by exact Hlen. cbn [Nat.add]. apply IH.
Qed.

Lemma chunkText_edge_cases_witness :
  chunkText 0 "" (Some 0%nat) = Some [] /\ chunkText 1000 "abc" (Some 0%nat) = None.
Proof.
  split.
  - now apply (proj1 (chunkText_edge_cases "")).
  - now apply (proj2 (chunkText_edge_cases "abc")).
Defined.

End ChunkingSpec.

(** ** Further facts about the two scores *)

Module ScoringFacts.
Import Scoring.

Local Open Scope R_scope.

Lemma dotProduct_comm (v w : list R) : dotProduct v w = dotProduct w v.
Proof.
  revert w. induction v as [|x v IH]; intros [|y w].
  - reflexivity.
  - now rewrite ScoringSpec.dotProduct_nil_l, ScoringSpec.dotProduct_nil_r.
  - now rewrite ScoringSpec.dotProduct_nil_l, ScoringSpec.dotProduct_nil_r.
  - rewrite !ScoringSpec.dotProduct_cons, IH. ring.
Qed.

Lemma manualCosine_comm (v w : list R) : manualCosine v w = manualCosine w v.
Proof.
  unfold manualCosine.
  destruct (Req_dec_T (sqrt (sumSquares v)) 0), (Req_dec_T (sqrt (sumSquares w)) 0);
    try reflexivity.
  rewrite dotProduct_comm. f_equal. ring.
Qed.








Section CosineSimilarity.

Variable cosine : list R -> list R -> option R.

Hypothesis cosine_is_distance :
  forall (v w : list R) (distance : R),
    List.length v = List.length w ->
    cosine v w = Some distance -> distance = 1 - manualCosine v w.

(** The similarity does not depend on the order of its two arguments. *)
Theorem cosineSimilarity_symmetric (vec1 vec2 : option (list R)) :
  cosineSimilarity cosine vec1 vec2 = cosineSimilarity cosine vec2 vec1.
Proof.
  destruct vec1 as [v|], vec2 as [w|]; try reflexivity.
  destruct (Nat.eq_dec (List.length v) (List.length w)) as [E|E].
  - rewrite (ScoringSpec.cosineSimilarity_same_length cosine cosine_is_distance v w E).
    rewrite (ScoringSpec.cosineSimilarity_same_length cosine cosine_is_distance w v
               (eq_sym E)).
    apply manualCosine_comm.
  - rewrite (ScoringSpec.cosineSimilarity_mismatch cosine v w E).
    rewrite (ScoringSpec.cosineSimilarity_mismatch cosine w v); [reflexivity | congruence].
Qed.


End CosineSimilarity.

Lemma cosineRaises_is_distance :
  forall (v w : list R) (distance : R),
    List.length v = List.length w ->
    Examples.cosineRaises v w = Some distance -> distance = 1 - manualCosine v w.
Proof. discriminate. Qed.

Lemma cosineSimilarity_symmetric_witness :
  cosineSimilarity Examples.cosineRaises (Some [3; 4]) (Some [4; 3])
  = cosineSimilarity Examples.cosineRaises (Some [4; 3]) (Some [3; 4]).
Proof.
  apply (cosineSimilarity_symmetric Examples.cosineRaises cosineRaises_is_distance).
Defined.


(** *** BM25 *)

(** The term-frequency factor saturates: it is never negative, never
    decreases when the term occurs more often, and stays below
    [k1 + 1] however often the term occurs. *)
Theorem tf_saturates (freq freq' docLength : nat) (corpus : list string) :
  (freq <= freq')%nat ->
  0 <= tf freq docLength (avgDocLength corpus) /\
  tf freq docLength (avgDocLength corpus) <= tf freq' docLength (avgDocLength corpus) /\
  tf freq' docLength (avgDocLength corpus) < k1 + 1.
Proof.
  intros Hle. pose proof (ScoringSpec.avgDocLength_nonneg corpus) as Havg.
  split; [now apply ScoringSpec.tf_nonneg|].
  unfold tf.
  pose proof (ScoringSpec.tf_denominator_pos 0 docLength _ Havg) as Hc.
  cbn [INR] in Hc. rewrite Rplus_0_l in Hc.
  set (c := k1 * (1 - b + b * (INR docLength / avgDocLength corpus))) in *.
  pose proof (pos_INR freq) as Hf. pose proof (pos_INR freq') as Hf'.
  apply le_INR in Hle.
  assert (Hk : 0 < k1 + 1) by (unfold k1; lra).
  split.
  - apply Rmult_le_reg_r with ((INR freq + c) * (INR freq' + c)).
    { apply Rmult_lt_0_compat; lra. }
    replace (INR freq * (k1 + 1) / (INR freq + c) * ((INR freq + c) * (INR freq' + c)))
      with (INR freq * (k1 + 1) * (INR freq' + c)) by (field; lra).
    replace (INR freq' * (k1 + 1) / (INR freq' + c) * ((INR freq + c) * (INR freq' + c)))
      with (INR freq' * (k1 + 1) * (INR freq + c)) by (field; lra).
    assert (E : INR freq' * (k1 + 1) * (INR freq + c) - INR freq * (k1 + 1) * (INR freq' + c)
                = (k1 + 1) * c * (INR freq' - INR freq)) by ring.
    assert (0 <= (k1 + 1) * c * (INR freq' - INR freq)).
    { apply Rmult_le_pos; [apply Rmult_le_pos|]; lra. }
    lra.
  - apply Rmult_lt_reg_r with (INR freq' + c); [lra|].
    replace (INR freq' * (k1 + 1) / (INR freq' + c) * (INR freq' + c))
      with (INR freq' * (k1 + 1)) by (field; lra).
    assert (0 < (k1 + 1) * c) by (apply Rmult_lt_0_compat; lra).
    lra.
Qed.

Lemma tf_saturates_witness :
  (1 <= 50)%nat /\
  tf 50 12 (avgDocLength ["the cat sat"; "a dog ran"]) < k1 + 1.
Proof.
  split; [lia|].
  apply (tf_saturates 1 50 12 ["the cat sat"; "a dog ran"]). lia.
Defined.

Lemma sum_zero {A} (f : A -> R) (l : list A) :
  (forall x, In x l -> f x = 0) -> fold_left (fun sum x => sum + f x) l 0 = 0.
Proof.
  induction l as [|x l IH]; intros H; [reflexivity|].
  cbn [fold_left]. rewrite (H x (or_introl eq_refl)), Rplus_0_l.
  apply IH. intros y Hy. apply H. now right.
Qed.

Section BM25.

Variable tokenize : string -> list string.

(** A document that shares no token with the query scores 0, and so does
    every document when the corpus is empty. *)
Theorem bm25_zero_without_overlap (query document : string) (corpus : list string) :
  (forall term, In term (tokenize (JsString.toLowerCase query)) ->
     ~ In term (tokenize (JsString.toLowerCase document))) \/ corpus = [] ->
  calculateBM25Score tokenize query document corpus = 0.
Proof.
  intros H. rewrite ScoringSpec.bm25_as_sum.
  apply (sum_zero (fun term => contribution term _ corpus)).
  assert (Hterm : forall term, In term (tokenize (JsString.toLowerCase query)) ->
            contribution term (tokenize (JsString.toLowerCase document)) corpus = 0).
  { intros term Hq. destruct H as [Hno | ->].
    - unfold contribution. destruct (Nat.ltb 0 (docFreq term corpus)); [|reflexivity].
      rewrite (ScoringSpec.termFreq_zero _ _ (Hno term Hq)), ScoringSpec.tf_zero. ring.
    - reflexivity. }
  exact Hterm.
Qed.

End BM25.

Lemma bm25_zero_without_overlap_witness :
  calculateBM25Score JsString.wordTokens "fast cars" "the cat sat"
    ["the cat sat"; "a dog ran"; "cars are fast"] = 0.
Proof.
  apply bm25_zero_without_overlap. left.
  intros term Hq Hd. vm_compute in Hq, Hd.
  destruct Hq as [<- | [<- | []]]; repeat (destruct Hd as [Hd | Hd]; [discriminate Hd|]);
    exact Hd.
Defined.

End ScoringFacts.

(** ** Further facts about the ranked list *)

Module RankerFacts.
Import Ranker.

Local Open Scope R_scope.


Lemma key_entry (m : ResultMap) (k : string) :
  In k (List.map fst m) -> exists v, In (k, v) m.
Proof.
  intros H. apply in_map_iff in H as ([k' v] & E & Hin). cbn in E. subst. now exists v.
Qed.



Section WithLibraries.

Variable cosine : list R -> list R -> option R.
Variable tokenize : string -> list string.

(** A corpus of at most [maxResults] chunks is returned whole: with at
    least one variation, every chunk id of the corpus is in the ranked
    list. *)
Theorem small_corpus_is_returned_whole (embedded : list (string * option (list R)))
    (allChunks : list Chunk) (maxResults : Z) (c : Chunk) :
  embedded <> [] ->
  (Z.of_nat (List.length allChunks) <= maxResults)%Z ->
  In c allChunks ->
  In (id c)
    (List.map (fun r => id (chunk r))
       (rankResults (hybridRetrieval cosine tokenize embedded allChunks) maxResults)).
Proof.
  intros Hne Hsmall Hc. unfold rankResults.
  rewrite RankerSpec.slice0_nonneg by lia.
  set (hs := hybridRetrieval cosine tokenize embedded allChunks).
  destruct (RankerSpec.deduplicate_invariant hs) as (Hnd & Hall & Hentries).
  pose proof (RankerSpec.values_ids hs _ (RankerSpec.deduplicate_invariant hs)) as Hids.
  set (m := deduplicate hs) in *.
  assert (Hkeys : incl (List.map fst m) (List.map id allChunks)).
  { intros k Hk. destruct (key_entry m k Hk) as [v Hv].
    destruct (Hentries _ _ Hv) as [<- [Hin _]].
    apply RankerSpec.in_hybridRetrieval in Hin as (qv & c' & _ & Hc' & ->).
    cbn. now apply in_map. }
  pose proof (NoDup_incl_length Hnd Hkeys) as Hlen. rewrite !length_map in Hlen.
  rewrite firstn_all2.
  2:{ rewrite (Permutation_length (RankerSpec.sortByScore_perm _)).
      unfold mapValues. rewrite length_map. lia. }
  apply (Permutation_in (l := List.map (fun r => id (chunk r)) (mapValues m))).
  { apply Permutation_map, Permutation_sym, RankerSpec.sortByScore_perm. }
  rewrite Hids.
  destruct embedded as [|qv rest]; [congruence|].
  apply (Hall (scoreChunk cosine tokenize (List.map content allChunks) (fst qv) (snd qv) c)).
  apply RankerSpec.in_hybridRetrieval. exists qv, c. repeat split; [now left | exact Hc].
Qed.

End WithLibraries.



Lemma small_corpus_is_returned_whole_witness :
  Examples.petVariations <> [] /\
  (Z.of_nat (List.length Examples.petCorpus) <= 5)%Z /\
  In "doc_2_chunk_0"
    (List.map (fun r => id (chunk r))
       (rankResults
          (hybridRetrieval Examples.cosineRaises JsString.wordTokens
             Examples.petVariations Examples.petCorpus) 5)).
Proof.
  split; [discriminate|]. split; [cbn; lia|].
  apply (small_corpus_is_returned_whole Examples.cosineRaises JsString.wordTokens
           Examples.petVariations Examples.petCorpus 5 Examples.carChunk);
    [discriminate | cbn; lia | right; right; now left].
Defined.

End RankerFacts.

(** ** Further facts about the lexical scores *)

Module EvaluatorFacts.
Import Evaluator.

Lemma divSizes_unit (a b : nat) :
  (a <= b)%nat -> b <> 0%nat ->
  exists q : Q, divSizes a b = Num q /\ (0 <= q)%Q /\ (q <= 1)%Q.
Proof.
  intros Hab Hb. rewrite (EvaluatorSpec.divSizes_pos a b Hb).
  eexists. split; [reflexivity|].
  rewrite Qred_correct. unfold Qle. cbn [Qnum Qden].
  rewrite Z.mul_1_r, Z.mul_1_l. split; [lia|].
  destruct b; [congruence|]. rewrite <- Pos.of_nat_succ, Zpos_P_of_succ_nat. lia.
Qed.

Lemma divSizes_same (a : nat) : a <> 0%nat -> divSizes a a = Num 1.
Proof.
  intros Ha. rewrite (EvaluatorSpec.divSizes_pos a a Ha). f_equal.
  transitivity (Qred 1); [|reflexivity]. apply Qred_complete.
  unfold Qeq. cbn [Qnum Qden]. destruct a; [congruence|].
  rewrite <- Pos.of_nat_succ, Zpos_P_of_succ_nat. lia.
Qed.

Section WithTerms.

Variable terms : string -> list string.

(** The similarity of two texts does not depend on their order. *)
Theorem similarity_symmetric (text1 text2 : string) :
  calculateSemanticSimilarity terms text1 text2
  = calculateSemanticSimilarity terms text2 text1.
Proof.
  rewrite !EvaluatorSpec.similarity_is_jaccard.
  f_equal; f_equal; [apply intersection_comm_L | apply union_comm_L].
Qed.

(** When at least one of the two texts has a term, the similarity is a
    number in [[0, 1]]; it is 1 when both texts have the same terms. *)
Theorem similarity_in_unit_interval (text1 text2 : string) :
  terms text1 <> [] \/ terms text2 <> [] ->
  (exists q : Q,
     calculateSemanticSimilarity terms text1 text2 = Num q /\ (0 <= q)%Q /\ (q <= 1)%Q) /\
  ((list_to_set (terms text1) : gset string) = list_to_set (terms text2) ->
   calculateSemanticSimilarity terms text1 text2 = Num 1).
Proof.
  intros Hne. rewrite EvaluatorSpec.similarity_is_jaccard.
  set (X := (list_to_set (terms text1) : gset string)).
  set (Y := (list_to_set (terms text2) : gset string)).
  assert (Hunion : size (X ∪ Y) <> 0%nat).
  { intros Hsz. apply size_empty_iff, leibniz_equiv in Hsz.
    assert (HX : X = ∅) by (apply leibniz_equiv; intros x; split; [|set_solver];
      intros Hx; rewrite <- Hsz; set_solver).
    assert (HY : Y = ∅) by (apply leibniz_equiv; intros x; split; [|set_solver];
      intros Hx; rewrite <- Hsz; set_solver).
    subst X Y. destruct Hne as [H | H]; apply H.
    - destruct (terms text1) as [|t l]; [reflexivity|]. exfalso.
      assert (t ∈ (∅ : gset string)) by (rewrite <- HX; set_solver). set_solver.
    - destruct (terms text2) as [|t l]; [reflexivity|]. exfalso.
      assert (t ∈ (∅ : gset string)) by (rewrite <- HY; set_solver). set_solver. }
  split.
  - apply divSizes_unit; [|exact Hunion]. apply subseteq_size. set_solver.
  - intros E. rewrite <- E in *.
    rewrite (intersection_idemp_L X). rewrite (union_idemp_L X) in *.
    now apply divSizes_same.
Qed.

End WithTerms.

Section Evaluation.

Variable terms : string -> list string.

(** The context precision is always a number in [[0, 1]], also when a
    similarity it compares is undefined.  The faithfulness is never
    computed: [calculateFaithfulness] calls [tokenize] on the tokenizer
    class, not on an instance, and raises for every answer and context; so
    [evaluateRAGResponse] rejects for every input, whatever the other two
    scores are. *)
Theorem contextPrecision_bounded_faithfulness_raises :
  (forall retrievedChunks relevantChunks,
     exists q : Q,
       calculateContextPrecision terms retrievedChunks relevantChunks = Num q /\
       (0 <= q)%Q /\ (q <= 1)%Q) /\
  (forall answer context,
     calculateFaithfulness terms answer context = Raised notAFunction) /\
  (forall question answer retrievedChunks relevantChunks now,
     evaluateRAGResponse terms question answer retrievedChunks relevantChunks now
     = Raised notAFunction).
Proof.
  split; [|split].
  - intros retrievedChunks relevantChunks. unfold calculateContextPrecision.
    destruct retrievedChunks as [|c rest].
    + exists 0%Q. repeat split; discriminate.
    + apply divSizes_unit; [apply List.filter_length_le | discriminate].
  - reflexivity.
  - reflexivity.
Qed.

End Evaluation.

Lemma similarity_in_unit_interval_witness :
  (JsString.words "is a cat a pet" <> [] \/ JsString.words "" <> []) /\
  exists q : Q,
    calculateSemanticSimilarity JsString.words "is a cat a pet" "" = Num q /\
    (0 <= q)%Q /\ (q <= 1)%Q.
Proof.
  split; [left; discriminate|].
  apply (similarity_in_unit_interval JsString.words "is a cat a pet" "").
  left. discriminate.
Defined.

End EvaluatorFacts.

(** ** Further facts about the [/query] route *)

Module ServerFacts.
Import Server.

Section WithServices.

Variable cosine : list R -> list R -> option R.
Variable tokenize : string -> list string.
Variable terms : string -> list string.
Variable Body : Type.
Variable validate : Body -> string + CacheKey.QueryRequest.
Variable generateContent : string -> outcome GenerationResponse.
Variable embedContent : string -> outcome (option (list R)).
Variable clock : nat -> Z.

(** The inner loops when every embedding request returns: one request per
    variation, in order, and one candidate per (variation, chunk). *)
Lemma retrieveAll_run (allChunks : list Chunk) (queryVariations : list string)
    (vectors : list (option (list R))) (hybridResults : list Ranker.HybridResult)
    (st : State) :
  Forall2 (fun v vec => embedContent v = Returned vec) queryVariations vectors ->
  retrieveAll cosine tokenize embedContent (List.map content allChunks) allChunks
    queryVariations hybridResults st
  = (Returned
       (hybridResults
        ++ Ranker.hybridRetrieval cosine tokenize (combine queryVariations vectors)
             allChunks),
     {| cache := cache st; metrics := metrics st; clockReads := clockReads st;
        trace := trace st ++ List.map EmbedContent queryVariations |}).
Proof.
  intros Hall. revert hybridResults st.
  induction Hall as [|v vec vs vecs Hv Hall IH]; intros hybridResults st.
  - cbn. rewrite !app_nil_r. now destruct st.
  - cbn [retrieveAll]. unfold bind at 1, callEmbedContent, bind at 1, emit, fromOutcome.
    rewrite Hv. rewrite IH. cbn [combine cache metrics clockReads trace List.map].
    unfold Ranker.hybridRetrieval. cbn [flat_map fst snd].
    now rewrite <- !app_assoc.
Qed.

(** The inner loops when the first embedding request raises. *)
Lemma retrieveAll_raises (corpus : list string) (allChunks : list Chunk)
    (queryVariation : string) (rest : list string)
    (hybridResults : list Ranker.HybridResult) (message : string) (st : State) :
  embedContent queryVariation = Raised message ->
  retrieveAll cosine tokenize embedContent corpus allChunks (queryVariation :: rest)
    hybridResults st
  = (Raised message,
     {| cache := cache st; metrics := metrics st; clockReads := clockReads st;
        trace := trace st ++ [EmbedContent queryVariation] |}).
Proof.
  intros Hv. cbn [retrieveAll].
  unfold bind, callEmbedContent, emit, fromOutcome. now rewrite Hv.
Qed.

Lemma embeddings_exist (queryVariations : list string) :
  (forall v, exists vec, embedContent v = Returned vec) ->
  exists vectors,
    Forall2 (fun v vec => embedContent v = Returned vec) queryVariations vectors.
Proof.
  intros H. induction queryVariations as [|v vs [vecs IH]].
  - exists []. constructor.
  - destruct (H v) as [vec Hv]. exists (vec :: vecs). now constructor.
Qed.

(** The route up to the point where the store has answered, on a miss. *)
Lemma queryRoute_miss_prefix (storedChunks : outcome (list Chunk))
    (body : Body) (value : CacheKey.QueryRequest) (st : State) :
  validate body = inr value ->
  lookupFresh (clock (S (clockReads st))) (CacheKey.cacheKey (CacheKey.question value))
    (cache st) = None ->
  exists queries : list string,
    hd_error queries = Some (CacheKey.question value) /\
    (List.length queries <= 4)%nat /\
    queryRoute cosine tokenize terms Body validate generateContent embedContent
      storedChunks clock body st
    = tryCatch
        (finally
           (allChunks <- fromOutcome storedChunks ;;
            match allChunks with
            | [] =>
                answeredAt <- dateNow clock ;;
                ret (Json {| answer := noDocumentsAnswer; sources := [];
                             queryVariations := queries; retrievalMethod := None;
                             evaluation := None;
                             responseTime := (answeredAt - clock (clockReads st))%Z;
                             timestamp := None; cached := false |})
            | _ =>
                answerFromChunks cosine tokenize terms generateContent
                  embedContent clock (clock (clockReads st)) value
                  (CacheKey.cacheKey (CacheKey.question value)) queries allChunks
            end)
           (fun st =>
              {| cache := cache st; metrics := metrics st;
                 clockReads := clockReads st; trace := trace st ++ [CloseSession] |}))
        (fun err =>
           recordedAt <- dateNow clock ;;
           recordQuery (recordedAt - clock (clockReads st)) false true ;;;
           answeredAt <- dateNow clock ;;
           ret (ServerError "Failed to process query" err
                  (answeredAt - clock (clockReads st))))
        {| cache := delete (CacheKey.cacheKey (CacheKey.question value)) (cache st);
           metrics := metrics st;
           clockReads := S (S (clockReads st));
           trace := trace st
                    ++ [GenerateContent (expansionPrompt (CacheKey.question value) 3);
                        RunCypher chunkQuery] |}.
Proof.
  intros Hvalid Hmiss.
  unfold queryRoute, bind at 1, dateNow at 1. rewrite Hvalid. cbv zeta.
  unfold tryCatch at 1, bind at 1, cacheGet, bind at 1, dateNow at 1.
  cbn [cache metrics clockReads trace]. rewrite Hmiss.
  unfold bind at 1.
  set (st1 := {| cache := _; metrics := _; clockReads := _; trace := _ |}).
  destruct (ServerSpec.generateMultipleQueries_run generateContent
              (CacheKey.question value) 3 st1) as (queries & Hrun & Hhd & _).
  assert (Hlen : (List.length queries <= 4)%nat).
  { revert Hrun. unfold generateMultipleQueries, tryCatch, callGenerateContent, bind,
      emit, fromOutcome, ret, raise. cbv zeta.
    destruct (generateContent (expansionPrompt (CacheKey.question value) 3)) as [r|];
      [destruct (text r) as [t|]|]; intros [= <-]; cbn [List.length]; try lia.
    unfold parseQueries. rewrite RankerSpec.slice0_nonneg by lia.
    pose proof (List.firstn_le_length (Z.to_nat 3)
      (List.map (fun line => JsString.trim (stripEnumeration line))
         (List.filter (fun line => JsString.truthy (JsString.trim line))
            (JsString.split (ascii_of_nat 10) t)))). lia. }
  exists queries. split; [exact Hhd|]. split; [exact Hlen|].
  rewrite Hrun. unfold tryCatch, finally, bind at 1, emit at 1.
  subst st1. cbn [cache metrics clockReads trace].
  rewrite <- !app_assoc. reflexivity.
Qed.

(** The evaluation rejects, and has not read the clock. *)
Lemma callEvaluate_raises (question answer : string) (retrievedChunks : list Chunk)
    (st : State) :
  callEvaluate terms clock question answer retrievedChunks st
  = (Raised Evaluator.notAFunction, st).
Proof. reflexivity. Qed.

(** Whatever the embedding service does, the inner loops leave the cache,
    the metrics and the clock as they were. *)
Lemma retrieveAll_state (corpus : list string) (allChunks : list Chunk)
    (queryVariations : list string) (hybridResults : list Ranker.HybridResult)
    (st : State) :
  exists r st' calls,
    retrieveAll cosine tokenize embedContent corpus allChunks queryVariations
      hybridResults st = (r, st') /\
    cache st' = cache st /\ metrics st' = metrics st /\
    clockReads st' = clockReads st /\ trace st' = trace st ++ calls.
Proof.
  revert hybridResults st.
  induction queryVariations as [|v vs IH]; intros hybridResults st.
  - exists (Returned hybridResults), st, []. cbn. rewrite app_nil_r. auto.
  - cbn [retrieveAll]. unfold bind at 1, callEmbedContent, bind at 1, emit, fromOutcome.
    destruct (embedContent v) as [vec|message].
    + match goal with
      | |- context [retrieveAll _ _ _ _ _ _ ?acc ?s] =>
          destruct (IH acc s) as (r & st' & calls & Hrun & Hc & Hm & Hr & Ht)
      end.
      rewrite Hrun. exists r, st', (EmbedContent v :: calls).
      cbn [cache metrics clockReads trace] in *.
      rewrite Ht, <- app_assoc. auto.
    + eexists _, _, [EmbedContent v]. split; [reflexivity|]. auto.
Qed.

(** The non-empty-corpus part of the route never returns: whatever the
    services do, it raises, at the latest in the evaluation, with the cache,
    the metrics and the clock as they were. *)
Lemma answerFromChunks_fails (startTime : Z) (value : CacheKey.QueryRequest)
    (cacheKey : string) (queries : list string) (allChunks : list Chunk) (st : State) :
  exists details st' calls,
    answerFromChunks cosine tokenize terms generateContent embedContent clock
      startTime value cacheKey queries allChunks st
    = (Raised details, st') /\
    cache st' = cache st /\ metrics st' = metrics st /\
    clockReads st' = clockReads st /\ trace st' = trace st ++ calls.
Proof.
  unfold answerFromChunks. cbv zeta. unfold bind at 1.
  destruct (retrieveAll_state (List.map content allChunks) allChunks queries [] st)
    as (r & st1 & calls & Hrun & Hc & Hm & Hr & Ht).
  rewrite Hrun. destruct r as [hybridResults | message].
  2:{ exists message, st1, calls. auto. }
  unfold bind at 1, callGenerateContent, bind at 1, emit, fromOutcome.
  match goal with
  | |- context [generateContent ?p] =>
      destruct (generateContent p) as [response | message];
      [|eexists _, _, (calls ++ [GenerateContent p]); split; [reflexivity|];
        cbn [cache metrics clockReads trace]; rewrite Ht, app_assoc; auto]
  end.
  unfold bind at 1.
  destruct (text response) as [t|];
    [|destruct (candidateText response) as [t|message]].
  - unfold ret at 1, bind at 1. rewrite callEvaluate_raises.
    eexists _, _, (calls ++ [_]). split; [reflexivity|].
    cbn [cache metrics clockReads trace]. rewrite Ht, app_assoc. auto.
  - unfold bind at 1. rewrite callEvaluate_raises.
    eexists _, _, (calls ++ [_]). split; [reflexivity|].
    cbn [cache metrics clockReads trace]. rewrite Ht, app_assoc. auto.
  - eexists _, _, (calls ++ [_]). split; [reflexivity|].
    cbn [cache metrics clockReads trace]. rewrite Ht, app_assoc. auto.
Qed.

(** When every embedding request returns and the answer-generation call
    returns a text, the answer is generated and then lost in the
    evaluation. *)
Lemma answerFromChunks_discards (startTime : Z) (value : CacheKey.QueryRequest)
    (cacheKey : string) (queries : list string) (vectors : list (option (list R)))
    (allChunks : list Chunk) (st : State) :
  Forall2 (fun v vec => embedContent v = Returned vec) queries vectors ->
  (forall prompt, exists response t,
      generateContent prompt = Returned response /\ text response = Some t) ->
  let topResults :=
    Ranker.rankResults
      (Ranker.hybridRetrieval cosine tokenize (combine queries vectors) allChunks)
      (CacheKey.maxResults value) in
  let context :=
    JsString.join (newline ++ newline)
      (List.map (fun item => content (Ranker.chunk item)) topResults) in
  answerFromChunks cosine tokenize terms generateContent embedContent clock
    startTime value cacheKey queries allChunks st
  = (Raised Evaluator.notAFunction,
     {| cache := cache st; metrics := metrics st; clockReads := clockReads st;
        trace := trace st ++ List.map EmbedContent queries
                 ++ [GenerateContent (answerPrompt context (CacheKey.question value))] |}).
Proof.
  intros Hembed Hgen. cbv zeta.
  unfold answerFromChunks. cbv zeta. unfold bind at 1.
  rewrite (retrieveAll_run allChunks queries vectors [] st Hembed). cbn [app].
  set (topResults := Ranker.rankResults _ _).
  set (context := JsString.join _ _).
  destruct (Hgen (answerPrompt context (CacheKey.question value)))
    as (response & t & Hr & Ht).
  unfold bind at 1, callGenerateContent, bind at 1, emit, fromOutcome.
  rewrite Hr. unfold bind at 1. rewrite Ht.
  unfold ret at 1, bind at 1. rewrite callEvaluate_raises.
  cbn [cache metrics clockReads trace]. now rewrite <- app_assoc.
Qed.

(** With chunks in the store no question is ever answered.  On a miss the
    route answers with status 500 whatever the services do: every path
    through the non-empty-corpus part raises, at the latest when the
    generated answer is evaluated.  The request is recorded as an error,
    nothing is written to the cache and the session is closed last.  When
    the services answer, the message is that of the evaluation. *)
Theorem nonempty_store_is_never_answered (body : Body) (value : CacheKey.QueryRequest)
    (st : State) (allChunks : list Chunk) :
  validate body = inr value ->
  lookupFresh (clock (S (clockReads st))) (CacheKey.cacheKey (CacheKey.question value))
    (cache st) = None ->
  allChunks <> [] ->
  exists (details : string) (st' : State) (calls : list Event),
    queryRoute cosine tokenize terms Body validate generateContent embedContent
      (Returned allChunks) clock body st
    = (Returned (ServerError "Failed to process query" details
                   (clock (3 + clockReads st) - clock (clockReads st))), st') /\
    metrics st'
    = Metrics.recordQuery (inject_Z (clock (2 + clockReads st) - clock (clockReads st)))
        false true (metrics st) /\
    cache st' = delete (CacheKey.cacheKey (CacheKey.question value)) (cache st) /\
    trace st'
    = trace st
      ++ [GenerateContent (expansionPrompt (CacheKey.question value) 3);
          RunCypher chunkQuery]
      ++ calls ++ [CloseSession] /\
    ((forall v, exists vec, embedContent v = Returned vec) ->
     (forall prompt, exists response t,
         generateContent prompt = Returned response /\ text response = Some t) ->
     details = Evaluator.notAFunction).
Proof.
  intros Hvalid Hmiss Hne.
  destruct (queryRoute_miss_prefix (Returned allChunks) body value st Hvalid Hmiss)
    as (queries & Hhd & Hlen & ->).
  destruct allChunks as [|c cs]; [congruence|].
  unfold tryCatch, finally, bind at 1, fromOutcome at 1.
  match goal with
  | |- context [answerFromChunks _ _ _ _ _ _ ?start _ ?key _ _ ?s] =>
      destruct (answerFromChunks_fails start value key queries (c :: cs) s)
        as (details & st1 & calls & Hrun & Hc & Hm & Hr & Ht);
      pose proof (fun vectors => answerFromChunks_discards start value key queries vectors
                                   (c :: cs) s) as Hdiscards
  end.
  rewrite Hrun in *. unfold bind, dateNow, recordQuery, ret.
  cbn [cache metrics clockReads trace] in *.
  exists details. eexists. exists calls. split; [rewrite Hr; reflexivity|].
  cbn [cache metrics clockReads trace]. rewrite Hc, Hm, Ht, <- !app_assoc.
  split; [reflexivity|]. split; [reflexivity|]. split; [reflexivity|].
  intros Hembed Hgen. destruct (embeddings_exist queries Hembed) as [vectors Hvec].
  specialize (Hdiscards vectors Hvec Hgen). cbv zeta in Hdiscards. congruence.
Qed.

(** The calls of a request that reaches the answer generation, in order:
    the query-expansion prompt, the store query, one embedding request per
    variation (at most 4), the answer-generation prompt built from the
    ranked chunks, and the session close.  The answer the last prompt
    produces is sent to nobody: the response is the error of the
    evaluation. *)
Theorem generated_answer_is_discarded (body : Body) (value : CacheKey.QueryRequest)
    (st : State) (allChunks : list Chunk) :
  validate body = inr value ->
  lookupFresh (clock (S (clockReads st))) (CacheKey.cacheKey (CacheKey.question value))
    (cache st) = None ->
  allChunks <> [] ->
  (forall v, exists vec, embedContent v = Returned vec) ->
  (forall prompt, exists response t,
      generateContent prompt = Returned response /\ text response = Some t) ->
  exists (queries : list string) (vectors : list (option (list R))) (st' : State),
    queryRoute cosine tokenize terms Body validate generateContent embedContent
      (Returned allChunks) clock body st
    = (Returned (ServerError "Failed to process query" Evaluator.notAFunction
                   (clock (3 + clockReads st) - clock (clockReads st))), st') /\
    hd_error queries = Some (CacheKey.question value) /\
    (List.length queries <= 4)%nat /\
    Forall2 (fun v vec => embedContent v = Returned vec) queries vectors /\
    let topResults :=
      Ranker.rankResults
        (Ranker.hybridRetrieval cosine tokenize (combine queries vectors) allChunks)
        (CacheKey.maxResults value) in
    let context :=
      JsString.join (newline ++ newline)
        (List.map (fun item => content (Ranker.chunk item)) topResults) in
    trace st'
    = trace st
      ++ [GenerateContent (expansionPrompt (CacheKey.question value) 3);
          RunCypher chunkQuery]
      ++ List.map EmbedContent queries
      ++ [GenerateContent (answerPrompt context (CacheKey.question value));
          CloseSession].
Proof.
  intros Hvalid Hmiss Hne Hembed Hgen.
  destruct (queryRoute_miss_prefix (Returned allChunks) body value st Hvalid Hmiss)
    as (queries & Hhd & Hlen & ->).
  destruct (embeddings_exist queries Hembed) as [vectors Hvec].
  destruct allChunks as [|c cs]; [congruence|].
  unfold tryCatch, finally, bind at 1, fromOutcome at 1.
  rewrite (answerFromChunks_discards _ value _ queries vectors (c :: cs) _ Hvec Hgen).
  unfold bind, dateNow, recordQuery, ret. cbn [cache metrics clockReads trace].
  exists queries, vectors. eexists. split; [reflexivity|].
  split; [exact Hhd|]. split; [exact Hlen|]. split; [exact Hvec|].
  cbv zeta. cbn [trace]. now rewrite <- !app_assoc.
Qed.

(** The route never writes to its cache.  For every request, every state
    and every behaviour of the services it returns a response, and the
    cache afterwards holds no entry it did not hold before (a lookup may
    drop the entry it finds expired).  Started with an empty cache, the
    route leaves it empty, and the only answer it can give is the
    no-documents answer, with no sources: it is never a cached one. *)
Theorem query_cache_is_never_written (storedChunks : outcome (list Chunk))
    (body : Body) (st : State) :
  exists (response : Response) (st' : State),
    queryRoute cosine tokenize terms Body validate generateContent embedContent
      storedChunks clock body st
    = (Returned response, st') /\
    cache st' ⊆ cache st /\
    (cache st = ∅ ->
     cache st' = ∅ /\
     forall result, response = Json result ->
       cached result = false /\ answer result = noDocumentsAnswer /\ sources result = []).
Proof.
  destruct (validate body) as [error | value] eqn:Hvalid.
  - unfold queryRoute, bind, dateNow, tryCatch, ret. rewrite Hvalid.
    eexists _, _. split; [reflexivity|]. cbn [cache]. split; [reflexivity|].
    intros He. split; [exact He | discriminate].
  - destruct (lookupFresh (clock (S (clockReads st)))
                (CacheKey.cacheKey (CacheKey.question value)) (cache st))
      as [stored|] eqn:Hlookup.
    + destruct (ServerSpec.cache_hit_is_served cosine tokenize terms Body validate
                  generateContent embedContent clock storedChunks body value st stored
                  Hvalid Hlookup)
        as (result & st' & Hrun & _ & _ & _ & _ & Hcache & _).
      exists (Json result), st'. split; [exact Hrun|]. rewrite Hcache.
      split; [reflexivity|]. intros He.
      unfold lookupFresh in Hlookup. rewrite He, lookup_empty in Hlookup. discriminate.
    + destruct (queryRoute_miss_prefix storedChunks body value st Hvalid Hlookup)
        as (queries & _ & _ & ->).
      assert (Hdel : forall key, cache st = ∅ -> delete key (cache st) = ∅).
      { intros key ->. apply delete_empty. }
      destruct storedChunks as [[|c cs] | message].
      * eexists _, _. split; [reflexivity|]. cbn [cache].
        split; [apply delete_subseteq|]. intros He. split; [now apply Hdel|].
        intros result [= <-]. repeat split.
      * unfold tryCatch, finally, bind at 1, fromOutcome at 1.
        match goal with
        | |- context [answerFromChunks _ _ _ _ _ _ ?start _ ?key _ _ ?s] =>
            destruct (answerFromChunks_fails start value key queries (c :: cs) s)
              as (details & st1 & calls & Hrun & Hc & _)
        end.
        rewrite Hrun. unfold bind, dateNow, recordQuery, ret.
        eexists _, _. split; [reflexivity|]. cbn [cache] in *. rewrite Hc.
        split; [apply delete_subseteq|]. intros He. split; [now apply Hdel|].
        discriminate.
      * unfold tryCatch, finally, bind, fromOutcome, dateNow, recordQuery, ret.
        eexists _, _. split; [reflexivity|]. cbn [cache].
        split; [apply delete_subseteq|]. intros He. split; [now apply Hdel|].
        discriminate.
Qed.

(** When the embedding request for the question itself raises, the route
    answers with status 500 and the message raised, closes the session,
    sends no answer-generation prompt, writes nothing to the cache and
    records the request as an error. *)
Theorem embedding_failure_is_reported (body : Body) (value : CacheKey.QueryRequest)
    (st : State) (allChunks : list Chunk) (message : string) :
  validate body = inr value ->
  lookupFresh (clock (S (clockReads st))) (CacheKey.cacheKey (CacheKey.question value))
    (cache st) = None ->
  allChunks <> [] ->
  embedContent (CacheKey.question value) = Raised message ->
  exists st' : State,
    queryRoute cosine tokenize terms Body validate generateContent embedContent
      (Returned allChunks) clock body st
    = (Returned (ServerError "Failed to process query" message
                   (clock (3 + clockReads st) - clock (clockReads st))), st') /\
    trace st'
    = trace st
      ++ [GenerateContent (expansionPrompt (CacheKey.question value) 3);
          RunCypher chunkQuery; EmbedContent (CacheKey.question value); CloseSession] /\
    cache st' = delete (CacheKey.cacheKey (CacheKey.question value)) (cache st) /\
    metrics st'
    = Metrics.recordQuery (inject_Z (clock (2 + clockReads st) - clock (clockReads st)))
        false true (metrics st).
Proof.
  intros Hvalid Hmiss Hne Hfail.
  destruct (queryRoute_miss_prefix (Returned allChunks) body value st Hvalid Hmiss)
    as (queries & Hhd & _ & ->).
  destruct queries as [|q rest]; [discriminate|]. injection Hhd as ->.
  destruct allChunks as [|c cs]; [congruence|].
  unfold tryCatch, finally, bind at 1, fromOutcome at 1.
  unfold answerFromChunks. cbv zeta. unfold bind at 1.
  rewrite (retrieveAll_raises _ _ _ _ _ message _ Hfail).
  unfold bind, dateNow, recordQuery, ret. cbn [cache metrics clockReads trace].
  eexists. split; [reflexivity|]. cbn [cache metrics clockReads trace].
  repeat split. now rewrite <- !app_assoc.
Qed.

(** When the store query raises, the route likewise answers with status
    500 and the message raised, closes the session and records an error;
    no embedding request is sent. *)
Lemma store_failure_is_reported (body : Body) (value : CacheKey.QueryRequest)
    (st : State) (message : string) :
  validate body = inr value ->
  lookupFresh (clock (S (clockReads st))) (CacheKey.cacheKey (CacheKey.question value))
    (cache st) = None ->
  exists st' : State,
    queryRoute cosine tokenize terms Body validate generateContent embedContent
      (Raised message) clock body st
    = (Returned (ServerError "Failed to process query" message
                   (clock (3 + clockReads st) - clock (clockReads st))), st') /\
    trace st'
    = trace st
      ++ [GenerateContent (expansionPrompt (CacheKey.question value) 3);
          RunCypher chunkQuery; CloseSession] /\
    Metrics.totalQueries (metrics st') = (Metrics.totalQueries (metrics st) + 1)%Z /\
    metrics st'
    = Metrics.recordQuery (inject_Z (clock (2 + clockReads st) - clock (clockReads st)))
        false true (metrics st).
Proof.
  intros Hvalid Hmiss.
  destruct (queryRoute_miss_prefix (Raised message) body value st Hvalid Hmiss)
    as (queries & _ & _ & ->).
  unfold tryCatch, finally, bind, fromOutcome, dateNow, recordQuery, ret.
  cbn [cache metrics clockReads trace].
  eexists. split; [reflexivity|]. cbn [cache metrics clockReads trace].
  repeat split. now rewrite <- !app_assoc.
Qed.

(** A request the schema rejects is answered with status 400 before
    anything else happens: no collaborator is called, the cache is not
    touched and the metrics do not count it. *)
Theorem invalid_request_is_rejected (storedChunks : outcome (list Chunk))
    (body : Body) (error : string) (st : State) :
  validate body = inl error ->
  exists st' : State,
    queryRoute cosine tokenize terms Body validate generateContent embedContent
      storedChunks clock body st
    = (Returned (BadRequest error), st') /\
    trace st' = trace st /\ cache st' = cache st /\ metrics st' = metrics st.
Proof.
  intros Hvalid. unfold queryRoute, bind, dateNow, tryCatch, ret. rewrite Hvalid.
  eexists. split; [reflexivity|]. repeat split.
Qed.

(** The no-documents answer is not stored: after it the cache has no entry
    for the question, so the next request reads the store again. *)
Theorem empty_corpus_answer_not_cached (body : Body) (value : CacheKey.QueryRequest)
    (st : State) :
  validate body = inr value ->
  lookupFresh (clock (S (clockReads st))) (CacheKey.cacheKey (CacheKey.question value))
    (cache st) = None ->
  exists (result : QueryResult) (st' : State),
    queryRoute cosine tokenize terms Body validate generateContent embedContent
      (Returned []) clock body st
    = (Returned (Json result), st') /\
    answer result = noDocumentsAnswer /\
    cache st' !! CacheKey.cacheKey (CacheKey.question value) = None /\
    forall now,
      lookupFresh now (CacheKey.cacheKey (CacheKey.question value)) (cache st') = None.
Proof.
  intros Hvalid Hmiss.
  destruct (queryRoute_miss_prefix (Returned []) body value st Hvalid Hmiss)
    as (queries & _ & _ & ->).
  eexists _, _. split; [reflexivity|]. cbn [answer cache].
  repeat split.
  - apply lookup_delete_eq.
  - intros now. unfold lookupFresh. now rewrite lookup_delete_eq.
Qed.

(** Query expansion makes exactly one call to the generation service, with
    no retry, touches nothing else, and returns the question followed by at
    most [numQueries] alternatives. *)
Theorem expansion_is_bounded (originalQuery : string) (numQueries : Z) (st : State) :
  (0 <= numQueries)%Z ->
  exists queries : list string,
    generateMultipleQueries generateContent originalQuery numQueries st
    = (Returned queries,
       {| cache := cache st; metrics := metrics st; clockReads := clockReads st;
          trace := trace st
                   ++ [GenerateContent (expansionPrompt originalQuery numQueries)] |}) /\
    (Z.of_nat (List.length queries) <= 1 + numQueries)%Z.
Proof.
  intros Hn.
  unfold generateMultipleQueries, tryCatch, callGenerateContent, bind, emit, fromOutcome,
    ret, raise. cbv zeta.
  destruct (generateContent (expansionPrompt originalQuery numQueries)) as [r|];
    [destruct (text r) as [t|]|]; eexists; (split; [reflexivity|]);
    cbn [List.length]; try lia.
  unfold parseQueries. rewrite RankerSpec.slice0_nonneg by lia.
  pose proof (List.firstn_le_length (Z.to_nat numQueries)
    (List.map (fun line => JsString.trim (stripEnumeration line))
       (List.filter (fun line => JsString.truthy (JsString.trim line))
          (JsString.split (ascii_of_nat 10) t)))). lia.
Qed.

End WithServices.

Lemma generationService_answers :
  forall prompt, exists response t,
    Examples.generationService prompt = Returned response /\ text response = Some t.
Proof. intros prompt. eexists _, _. split; reflexivity. Qed.

Lemma embeddingService_answers :
  forall v, exists vec, Examples.embeddingService v = Returned vec.
Proof. intros v. eexists. reflexivity. Qed.

Lemma nonempty_store_is_never_answered_witness :
  exists st' : State,
    queryRoute Examples.cosineRaises JsString.wordTokens JsString.words Examples.Body
      Examples.validate
      Examples.generationService Examples.embeddingService (Returned Examples.petCorpus)
      Examples.clock Examples.catBody Examples.freshState
    = (Returned (ServerError "Failed to process query"
                   "natural.SentenceTokenizer.tokenize is not a function" 75), st') /\
    cache st' = ∅ /\
    Metrics.totalQueries (metrics st') = 1%Z.
Proof.
  destruct (nonempty_store_is_never_answered Examples.cosineRaises JsString.wordTokens
              JsString.words Examples.Body Examples.validate Examples.generationService
              Examples.embeddingService Examples.clock Examples.catBody
              Examples.catRequest Examples.freshState Examples.petCorpus)
    as (details & st' & calls & Hrun & Hmetrics & Hcache & _ & Hdetails);
    [reflexivity | reflexivity | discriminate |].
  rewrite (Hdetails embeddingService_answers generationService_answers) in Hrun.
  exists st'. split; [exact Hrun|]. split; [|now rewrite Hmetrics].
  rewrite Hcache. apply delete_empty.
Defined.

Lemma generated_answer_is_discarded_witness :
  exists (queries : list string) (st' : State) (prompt : string),
    queryRoute Examples.cosineRaises JsString.wordTokens JsString.words Examples.Body
      Examples.validate
      Examples.generationService Examples.embeddingService (Returned Examples.petCorpus)
      Examples.clock Examples.catBody Examples.freshState
    = (Returned (ServerError "Failed to process query"
                   "natural.SentenceTokenizer.tokenize is not a function" 75), st') /\
    (List.length queries <= 4)%nat /\
    trace st'
    = [GenerateContent (expansionPrompt "What is a cat?" 3); RunCypher chunkQuery]
      ++ List.map EmbedContent queries
      ++ [GenerateContent prompt; CloseSession].
Proof.
  destruct (generated_answer_is_discarded Examples.cosineRaises JsString.wordTokens
              JsString.words Examples.Body Examples.validate Examples.generationService
              Examples.embeddingService Examples.clock Examples.catBody
              Examples.catRequest Examples.freshState Examples.petCorpus)
    as (queries & vectors & st' & Hrun & _ & Hlen & _ & Htrace);
    [reflexivity | reflexivity | discriminate | apply embeddingService_answers
     | apply generationService_answers |].
  exists queries, st'. eexists. split; [exact Hrun|]. split; [exact Hlen|].
  exact Htrace.
Defined.

Lemma query_cache_is_never_written_witness :
  exists (response : Response) (st' : State),
    queryRoute Examples.cosineRaises JsString.wordTokens JsString.words Examples.Body
      Examples.validate
      Examples.generationService Examples.embeddingService (Returned Examples.petCorpus)
      Examples.clock Examples.catBody Examples.freshState
    = (Returned response, st') /\
    cache st' = ∅.
Proof.
  destruct (query_cache_is_never_written Examples.cosineRaises JsString.wordTokens
              JsString.words Examples.Body Examples.validate Examples.generationService
              Examples.embeddingService Examples.clock (Returned Examples.petCorpus)
              Examples.catBody Examples.freshState)
    as (response & st' & Hrun & _ & Hempty).
  exists response, st'. split; [exact Hrun|]. now apply Hempty.
Defined.

Lemma embedding_failure_is_reported_witness :
  exists st' : State,
    queryRoute Examples.cosineRaises JsString.wordTokens JsString.words Examples.Body
      Examples.validate
      Examples.generationService Examples.failingEmbedding (Returned Examples.petCorpus)
      Examples.clock Examples.catBody Examples.freshState
    = (Returned (ServerError "Failed to process query" "quota exceeded" 75), st') /\
    Metrics.totalQueries (metrics st') = 1%Z.
Proof.
  destruct (embedding_failure_is_reported Examples.cosineRaises JsString.wordTokens
              JsString.words Examples.Body Examples.validate Examples.generationService
              Examples.failingEmbedding Examples.clock Examples.catBody
              Examples.catRequest Examples.freshState Examples.petCorpus "quota exceeded")
    as (st' & Hrun & _ & _ & Hmetrics);
    [reflexivity | reflexivity | discriminate | reflexivity |].
  exists st'. split; [exact Hrun | now rewrite Hmetrics].
Defined.

Lemma invalid_request_is_rejected_witness :
  exists st' : State,
    queryRoute Examples.cosineRaises JsString.wordTokens JsString.words Examples.Body
      Examples.validate
      Examples.generationService Examples.embeddingService (Returned Examples.petCorpus)
      Examples.clock Examples.shortBody Examples.freshState
    = (Returned (BadRequest (Examples.quoted "question"
                               ++ " length must be at least 3 characters long")%string),
       st') /\
    trace st' = [] /\ cache st' = ∅ /\ metrics st' = Metrics.initial.
Proof.
  apply (invalid_request_is_rejected Examples.cosineRaises JsString.wordTokens
           JsString.words Examples.Body Examples.validate Examples.generationService
           Examples.embeddingService Examples.clock (Returned Examples.petCorpus)
           Examples.shortBody _ Examples.freshState).
  reflexivity.
Defined.

Lemma empty_corpus_answer_not_cached_witness :
  exists (result : QueryResult) (st' : State),
    queryRoute Examples.cosineRaises JsString.wordTokens JsString.words Examples.Body
      Examples.validate
      Examples.generationService Examples.embeddingService (Returned [])
      Examples.clock Examples.catBody Examples.freshState
    = (Returned (Json result), st') /\
    answer result = noDocumentsAnswer /\
    cache st' !! CacheKey.cacheKey "What is a cat?" = None.
Proof.
  destruct (empty_corpus_answer_not_cached Examples.cosineRaises JsString.wordTokens
              JsString.words Examples.Body Examples.validate Examples.generationService
              Examples.embeddingService Examples.clock Examples.catBody
              Examples.catRequest Examples.freshState)
    as (result & st' & Hrun & Hanswer & Hcache & _); [reflexivity | reflexivity |].
  exists result, st'. auto.
Defined.

Lemma expansion_is_bounded_witness :
  (0 <= 3)%Z /\
  exists queries : list string,
    fst (generateMultipleQueries Examples.generationService "What is a cat?" 3
           Examples.freshState)
    = Returned queries /\
    (Z.of_nat (List.length queries) <= 4)%Z.
Proof.
  split; [lia|].
  destruct (expansion_is_bounded Examples.generationService "What is a cat?" 3
              Examples.freshState) as (queries & Hrun & Hlen); [lia|].
  exists queries. rewrite Hrun. split; [reflexivity | exact Hlen].
Defined.

End ServerFacts.
(** ** The [/health] route *)

Module HealthSpec.
Import Server Health.

Section WithServices.

Variable Stats : Type.
Variable getStats : gmap string (QueryResult * Z) -> Stats.
Variable probeStore : outcome unit.
Variable generateContent : string -> outcome GenerationResponse.
Variable embedContent : string -> outcome (option (list R)).
Variable clock : nat -> Z.

(** The route always answers (it never raises) and closes its session
    last; the status is [OK] exactly when the store probe, the embedding
    probe and the generation probe all return, and then the report carries
    the current metrics and no error message. *)
Theorem health_ok_iff_all_probes_return (st : State) :
  exists (report : HealthReport Stats) (st' : State),
    healthRoute Stats getStats probeStore generateContent embedContent clock st
    = (Returned report, st') /\
    (exists calls, trace st' = trace st ++ calls ++ [CloseSession]) /\
    (status report = OK <->
     (exists u, probeStore = Returned u) /\
     (exists vec, embedContent probeText = Returned vec) /\
     (exists response, generateContent probeText = Returned response)) /\
    (status report = OK ->
     error report = None /\ currentMetrics report = Some (metrics st)).
Proof.
  unfold healthRoute, finally, tryCatch, bind, emit, fromOutcome, callEmbedContent,
    callGenerateContent, bind, emit, fromOutcome, getState, dateNow, ret.
  cbn [cache metrics clockReads trace].
  destruct probeStore as [u|m0]; cbn [cache metrics clockReads trace].
  - destruct (embedContent probeText) as [vec|m1],
             (generateContent probeText) as [response|m2];
      cbn [cache metrics clockReads trace]; eexists _, _; (split; [reflexivity|]);
      cbn [status error currentMetrics trace];
      (split; [exists [RunCypher probeStatement; EmbedContent probeText;
                       GenerateContent probeText];
               rewrite <- !app_assoc; reflexivity|]); split.
    + split; [intros _; repeat split; eexists; reflexivity | reflexivity].
    + intros _. split; reflexivity.
    + split; [discriminate | intros (_ & _ & [? H]); discriminate H].
    + discriminate.
    + split; [discriminate | intros (_ & [? H] & _); discriminate H].
    + discriminate.
    + split; [discriminate | intros (_ & [? H] & _); discriminate H].
    + discriminate.
  - eexists _, _. split; [reflexivity|]. cbn [status error currentMetrics trace].
    split; [exists [RunCypher probeStatement]; rewrite <- !app_assoc; reflexivity|]. split.
    + split; [discriminate | intros ([? H] & _); discriminate H].
    + discriminate.
Qed.

(** When the store probe raises, neither service is probed: the only calls
    are the probe statement and the session close, both services are
    reported [Unknown] and the message raised is the error reported. *)
Theorem health_store_down (message : string) (st : State) :
  probeStore = Raised message ->
  exists (report : HealthReport Stats) (st' : State),
    healthRoute Stats getStats probeStore generateContent embedContent clock st
    = (Returned report, st') /\
    status report = ERROR /\
    neo4j report = Disconnected /\
    geminiEmbedding report = Unknown /\
    geminiGeneration report = Unknown /\
    error report = Some message /\
    trace st' = trace st ++ [RunCypher probeStatement; CloseSession].
Proof.
  intros ->.
  unfold healthRoute, finally, tryCatch, bind, emit, fromOutcome, dateNow, ret.
  cbn [cache metrics clockReads trace].
  eexists _, _. split; [reflexivity|]. cbn [status neo4j geminiEmbedding geminiGeneration
    error trace]. repeat split. now rewrite <- app_assoc.
Qed.

(** With the store reachable both services are always probed, whatever
    the first probe gives; when both fail the message reported is the
    generation service's, unless that one is empty. *)
Theorem health_reports_both_services (u : unit) (st : State) :
  probeStore = Returned u ->
  exists (report : HealthReport Stats) (st' : State),
    healthRoute Stats getStats probeStore generateContent embedContent clock st
    = (Returned report, st') /\
    trace st'
    = trace st ++ [RunCypher probeStatement; EmbedContent probeText;
                   GenerateContent probeText; CloseSession] /\
    (geminiEmbedding report = Disconnected <->
     exists m, embedContent probeText = Raised m) /\
    (geminiGeneration report = Disconnected <->
     exists m, generateContent probeText = Raised m) /\
    (forall m1 m2,
       embedContent probeText = Raised m1 ->
       generateContent probeText = Raised m2 ->
       m2 <> EmptyString ->
       error report = Some m2).
Proof.
  intros ->.
  unfold healthRoute, finally, tryCatch, bind, emit, fromOutcome, callEmbedContent,
    callGenerateContent, bind, emit, fromOutcome, getState, dateNow, ret.
  cbn [cache metrics clockReads trace].
  destruct (embedContent probeText) as [vec|m1],
           (generateContent probeText) as [response|m2];
    cbn [cache metrics clockReads trace]; eexists _, _; (split; [reflexivity|]);
    cbn [geminiEmbedding geminiGeneration error trace]; rewrite <- !app_assoc;
    (split; [reflexivity|]).
  all: repeat split; try discriminate; try (intros [? H]; discriminate H); eauto.
  all: try (intros ? ? H; discriminate H).
  all: try (intros ? ? _ H; discriminate H).
  intros ? ? [= <-] [= <-] Hne. unfold errorField, orElse.
  destruct m2; [congruence | reflexivity].
Qed.

End WithServices.

Lemma health_store_down_witness :
  exists (report : HealthReport nat) (st' : State),
    healthRoute nat size (Raised "connection refused") Examples.generationService
      Examples.embeddingService Examples.clock Examples.freshState
    = (Returned report, st') /\
    status report = ERROR /\
    error report = Some "connection refused" /\
    trace st' = [RunCypher probeStatement; CloseSession].
Proof.
  destruct (health_store_down nat size (Raised "connection refused")
              Examples.generationService Examples.embeddingService Examples.clock
              "connection refused" Examples.freshState eq_refl)
    as (report & st' & Hrun & Hstatus & _ & _ & _ & Herror & Htrace).
  exists report, st'. auto.
Defined.

Lemma health_reports_both_services_witness :
  exists (report : HealthReport nat) (st' : State),
    healthRoute nat size (Returned tt) Examples.generationService
      Examples.failingEmbedding Examples.clock Examples.freshState
    = (Returned report, st') /\
    geminiEmbedding report = Disconnected /\
    trace st'
    = [RunCypher probeStatement; EmbedContent probeText; GenerateContent probeText;
       CloseSession].
Proof.
  destruct (health_reports_both_services nat size (Returned tt)
              Examples.generationService Examples.failingEmbedding Examples.clock
              tt Examples.freshState eq_refl)
    as (report & st' & Hrun & Htrace & Hembed & _).
  exists report, st'. repeat split; [exact Hrun | | exact Htrace].
  apply Hembed. eexists. reflexivity.
Defined.

Lemma health_ok_iff_all_probes_return_witness :
  exists (report : HealthReport nat) (st' : State),
    healthRoute nat size (Returned tt) Examples.generationService
      Examples.embeddingService Examples.clock Examples.freshState
    = (Returned report, st') /\
    status report = OK.
Proof.
  destruct (health_ok_iff_all_probes_return nat size (Returned tt)
              Examples.generationService Examples.embeddingService Examples.clock
              Examples.freshState)
    as (report & st' & Hrun & _ & Hok & _).
  exists report, st'. split; [exact Hrun|].
  apply Hok. repeat split; eexists; reflexivity.
Defined.

End HealthSpec.
(** ** The [/upload] route *)

Module UploadSpec.
Import Server Upload.

Lemma append_inj_l (s a b : string) : (s ++ a)%string = (s ++ b)%string -> a = b.
Proof.
  induction s as [|c s IH]; intros H; [exact H|].
  rewrite !ChunkingSpec.append_cons in H. injection H as H. now apply IH.
Qed.

Lemma numberToString_inj (n m : Z) : numberToString n = numberToString m -> n = m.
Proof.
  unfold numberToString. intros H.
  assert (Hn : forall z, NilZero.int_of_string (NilZero.string_of_int (Z.to_int z))
                         = Some (Z.to_int z)).
  { intros z. apply NilZero.isi; destruct z; cbn; try discriminate;
      intros [= E]; now apply Stdlib.Numbers.DecimalPos.Unsigned.to_uint_nonnil in E. }
  apply Stdlib.Numbers.DecimalZ.to_int_inj.
  pose proof (Hn n) as H1. rewrite H, Hn in H1. now injection H1.
Qed.

Lemma chunkIdOf_inj (docId : string) (i j : nat) :
  chunkIdOf docId i = chunkIdOf docId j -> i = j.
Proof.
  unfold chunkIdOf. intros H.
  apply append_inj_l, append_inj_l, numberToString_inj in H. lia.
Qed.

Lemma chunksOf_spec (text : string) :
  String.concat EmptyString (chunksOf text) = text /\
  List.length (chunksOf text) = ((String.length text + 999) / 1000)%nat /\
  Forall (fun c => (1 <= String.length c <= 1000)%nat) (chunksOf text).
Proof.
  assert (Hk : (1 <= default 1000 (Some 1000))%nat) by (cbn; lia).
  destruct (ChunkingSpec.chunkLoop_from text _ Hk (String.length text) 0)
    as (pieces & Hrun & Hcat & Hall & _ & Hcount); [lia|].
  assert (E : chunksOf text = pieces).
  { unfold chunksOf, Chunking.chunkText.
    now rewrite (Hrun (String.length text) [] (Nat.le_refl _)). }
  rewrite E. rewrite Nat.sub_0_r in Hcat, Hcount.
  rewrite ChunkingSpec.substring_whole in Hcat.
  repeat split; assumption.
Qed.

Lemma createdChunks_app (a b : list StoreEvent) :
  createdChunks (a ++ b) = createdChunks a ++ createdChunks b.
Proof. unfold createdChunks. apply flat_map_app. Qed.

Section WithServices.

Variable extractPages : string -> outcome (list (list string)).
Variable embedContent : string -> outcome (option (list R)).
Variable runStatement : Statement -> outcome unit.
Variable clock : nat -> Z.

(** Without a file the route answers 400 and does nothing else. *)
Lemma uploadRoute_without_file (st : State) :
  uploadRoute extractPages embedContent runStatement clock None st
  = (Returned (NoFile "No PDF file provided"),
     {| store := store st; chunkCache := chunkCache st; files := files st;
        clockReads := S (clockReads st) |}).
Proof. reflexivity. Qed.

Section StoreAccepts.

Hypothesis store_accepts : forall s, exists u, runStatement s = Returned u.

Lemma run_accepted (s : Statement) (st : State) :
  run runStatement s st
  = (Returned tt,
     {| store := store st ++ [Ran s]; chunkCache := chunkCache st;
        files := files st; clockReads := clockReads st |}).
Proof. unfold run. now destruct (store_accepts s) as [u ->]. Qed.

(** The loop when the store accepts every write. *)
Lemma processChunks_run (docId : string) (chunks : list string) (i : nat)
    (allChunks : list string) (st : State) :
  processChunks embedContent runStatement docId chunks i allChunks st
  = (Returned (allChunks ++ List.filter (embeds embedContent) chunks),
     {| store := store st ++ writesFor embedContent docId i chunks;
        chunkCache := chunkCache st; files := files st;
        clockReads := clockReads st |}).
Proof.
  revert i allChunks st. induction chunks as [|chunk rest IH]; intros i allChunks st.
  - cbn. rewrite !app_nil_r. now destruct st.
  - cbn [processChunks writesFor List.filter]. unfold embeds at 1.
    unfold bind at 1, tryCatch, bind at 1, fromOutcome.
    destruct (embedContent chunk) as [embedding | message].
    + unfold bind at 1. rewrite run_accepted. unfold bind at 1. rewrite run_accepted.
      unfold ret at 1. rewrite IH. cbn [store chunkCache files clockReads].
      now rewrite <- !app_assoc.
    + unfold ret at 1. rewrite IH. cbn [app]. reflexivity.
Qed.

(** The whole route when the file is there, its text can be extracted and
    the store accepts every write. *)
Lemma uploadRoute_run (f : UploadedFile) (pages : list (list string)) (st : State) :
  extractPages (path f) = Returned pages ->
  let text := pagesText pages in
  let docId := ("doc_" ++ numberToString (clock (1 + clockReads st)))%string in
  let chunks := chunksOf text in
  uploadRoute extractPages embedContent runStatement clock (Some f) st
  = (Returned (Processed "PDF processed and stored successfully" docId
                 (List.length chunks)
                 (clock (4 + clockReads st) - clock (clockReads st))
                 (clock (5 + clockReads st))),
     {| store :=
          store st
          ++ [Ran (CreateDocument
                     {| documentId := docId; title := originalname f;
                        documentContent := text;
                        processingTime :=
                          (clock (2 + clockReads st) - clock (clockReads st))%Z |})]
          ++ writesFor embedContent docId 0 chunks ++ [Closed];
        chunkCache :=
          <[chunkCacheKey docId
            := (List.filter (embeds embedContent) chunks,
                (clock (3 + clockReads st) + 3600 * 1000)%Z)]> (chunkCache st);
        files := if decide (path f ∈ files st) then files st ∖ {[ path f ]}
                 else files st;
        clockReads := 6 + clockReads st |}).
Proof.
  intros Hpages. cbv zeta.
  unfold uploadRoute, bind at 1, dateNow at 1, tryCatch, bind at 1, fromOutcome at 1.
  rewrite Hpages. cbv zeta. unfold bind at 1, dateNow at 1.
  cbn [store chunkCache files clockReads].
  unfold bind at 1, finally, bind at 1, dateNow at 1.
  cbn [store chunkCache files clockReads].
  unfold bind at 1. rewrite run_accepted. cbn [store chunkCache files clockReads].
  unfold bind at 1. rewrite processChunks_run. cbn [store chunkCache files clockReads app].
  unfold bind, cacheSet, bind, dateNow, removeFile, ret.
  cbn [store chunkCache files clockReads]. rewrite <- !app_assoc. reflexivity.
Qed.

End StoreAccepts.

(** The chunk nodes the loop writes: one per chunk whose embedding request
    returns, in order, each numbered by the position of its chunk. *)
Lemma createdChunks_writesFor (docId : string) (i : nat) (chunks : list string) :
  List.map chunkContent (createdChunks (writesFor embedContent docId i chunks))
  = List.filter (embeds embedContent) chunks /\
  ((forall c, In c chunks -> embeds embedContent c = true) ->
   List.map index (createdChunks (writesFor embedContent docId i chunks))
   = seq i (List.length chunks)) /\
  Forall (fun c => chunkDocId c = docId /\ chunkId c = chunkIdOf docId (index c))
    (createdChunks (writesFor embedContent docId i chunks)).
Proof.
  revert i. induction chunks as [|chunk rest IH]; intros i.
  - repeat split. constructor.
  - destruct (IH (S i)) as (IHc & IHi & IHd).
    cbn [writesFor List.filter]. unfold embeds at 1 3.
    rewrite createdChunks_app.
    destruct (embedContent chunk) as [embedding | message] eqn:He; cbn [createdChunks flat_map app].
    + repeat split.
      * cbn [List.map chunkContent]. f_equal. exact IHc.
      * intros Hall. cbn [List.map index List.length seq]. f_equal.
        apply IHi. intros c Hc. apply Hall. now right.
      * constructor; [now split | exact IHd].
    + repeat split; try assumption.
      intros Hall. specialize (Hall chunk (or_introl eq_refl)).
      unfold embeds in Hall. rewrite He in Hall. discriminate.
Qed.

(** The count the route reports is the number of chunks the text was cut
    into, ceil(length / 1000), whether or not their embedding requests
    returned; what is written to the store and to the cache are only the
    chunks whose request returned. *)
Theorem upload_counts_every_chunk (f : UploadedFile) (pages : list (list string))
    (st : State) :
  (forall s, exists u, runStatement s = Returned u) ->
  extractPages (path f) = Returned pages ->
  exists (docId : string) (reported : nat) (processingTime timestamp : Z) (st' : State)
         (written : list ChunkNode) (expiry : Z),
    uploadRoute extractPages embedContent runStatement clock (Some f) st
    = (Returned (Processed "PDF processed and stored successfully" docId reported
                   processingTime timestamp), st') /\
    reported = ((String.length (pagesText pages) + 999) / 1000)%nat /\
    createdChunks (store st') = createdChunks (store st) ++ written /\
    List.map chunkContent written
    = List.filter (embeds embedContent) (chunksOf (pagesText pages)) /\
    chunkCache st' !! chunkCacheKey docId
    = Some (List.filter (embeds embedContent) (chunksOf (pagesText pages)), expiry) /\
    (List.length written <= reported)%nat.
Proof.
  intros Haccept Hpages.
  pose proof (uploadRoute_run Haccept f pages st Hpages) as Hrun. cbv zeta in Hrun.
  destruct (chunksOf_spec (pagesText pages)) as (_ & Hcount & _).
  set (docId := ("doc_" ++ numberToString (clock (1 + clockReads st)))%string) in *.
  destruct (createdChunks_writesFor docId 0 (chunksOf (pagesText pages))) as (Hc & _ & _).
  eexists _, _, _, _, _, (createdChunks (writesFor embedContent docId 0 _)), _.
  split; [exact Hrun|]. cbn [store chunkCache]. repeat split.
  - exact Hcount.
  - rewrite !createdChunks_app. cbn [createdChunks flat_map app]. now rewrite app_nil_r.
  - exact Hc.
  - apply lookup_insert_eq.
  - rewrite <- (length_map chunkContent), Hc. apply List.filter_length_le.
Qed.

(** When every embedding request returns and the store accepts every
    write, the chunk nodes written carry the pieces of the text in order,
    numbered from 0, under pairwise distinct ids; joined, they give back the
    extracted text, and the uploaded file is removed. *)
Theorem upload_stores_whole_text (f : UploadedFile) (pages : list (list string))
    (st : State) :
  (forall s, exists u, runStatement s = Returned u) ->
  (forall chunk, exists embedding, embedContent chunk = Returned embedding) ->
  extractPages (path f) = Returned pages ->
  exists (response : UploadResponse) (st' : State) (written : list ChunkNode),
    uploadRoute extractPages embedContent runStatement clock (Some f) st
    = (Returned response, st') /\
    createdChunks (store st') = createdChunks (store st) ++ written /\
    String.concat EmptyString (List.map chunkContent written) = pagesText pages /\
    List.map index written = seq 0 (List.length written) /\
    NoDup (List.map chunkId written) /\
    path f ∉ files st'.
Proof.
  intros Haccept Hembed Hpages.
  pose proof (uploadRoute_run Haccept f pages st Hpages) as Hrun. cbv zeta in Hrun.
  destruct (chunksOf_spec (pagesText pages)) as (Hcat & _ & _).
  set (docId := ("doc_" ++ numberToString (clock (1 + clockReads st)))%string) in *.
  destruct (createdChunks_writesFor docId 0 (chunksOf (pagesText pages)))
    as (Hc & Hi & Hd).
  assert (Hall : forall c, In c (chunksOf (pagesText pages)) -> embeds embedContent c = true).
  { intros c _. unfold embeds. now destruct (Hembed c) as [e ->]. }
  specialize (Hi Hall).
  assert (Hfilter : List.filter (embeds embedContent) (chunksOf (pagesText pages))
                    = chunksOf (pagesText pages)).
  { clear - Hall. induction (chunksOf (pagesText pages)) as [|c l IH]; [reflexivity|].
    cbn. rewrite (Hall c (or_introl eq_refl)). f_equal. apply IH.
    intros x Hx. apply Hall. now right. }
  rewrite Hfilter in Hc.
  set (written := createdChunks (writesFor embedContent docId 0 (chunksOf (pagesText pages)))) in *.
  assert (Hlen : List.length written = List.length (chunksOf (pagesText pages))).
  { now rewrite <- (length_map chunkContent), Hc. }
  eexists _, _, written. split; [exact Hrun|]. cbn [store files]. repeat split.
  - rewrite !createdChunks_app. cbn [createdChunks flat_map app]. now rewrite app_nil_r.
  - now rewrite Hc.
  - now rewrite Hlen.
  - assert (Hids : List.map chunkId written
                   = List.map (chunkIdOf docId) (List.map index written)).
    { rewrite List.map_map. apply List.map_ext_in. intros c Hc'.
      rewrite Forall_forall in Hd. now apply Hd. }
    rewrite Hids, Hi. apply Finite.Injective_map_NoDup; [|apply seq_NoDup].
    intros i j. apply chunkIdOf_inj.
  - destruct (decide (path f ∈ files st)); set_solver.
Qed.

(** A failed upload (the text cannot be extracted, or the store refuses to
    create the document node) is answered with status 500 and the message
    raised; it writes no chunk and no cache entry, and the uploaded file
    stays on disk: the removal is only reached after a successful run. *)
Theorem upload_failure_keeps_file (f : UploadedFile) (message : string) (st : State) :
  extractPages (path f) = Raised message \/
  ((exists pages, extractPages (path f) = Returned pages) /\
   forall d, runStatement (CreateDocument d) = Raised message) ->
  exists st' : State,
    uploadRoute extractPages embedContent runStatement clock (Some f) st
    = (Returned (Failed "Failed to process PDF" message), st') /\
    files st' = files st /\
    chunkCache st' = chunkCache st /\
    createdChunks (store st') = createdChunks (store st).
Proof.
  intros [Hextract | [[pages Hpages] Hrefuse]].
  - unfold uploadRoute, bind, dateNow, tryCatch, fromOutcome. rewrite Hextract.
    eexists. split; [reflexivity|]. repeat split.
  - unfold uploadRoute, bind at 1, dateNow at 1, tryCatch, bind at 1, fromOutcome at 1.
    rewrite Hpages. cbv zeta. unfold bind at 1, dateNow at 1.
    cbn [store chunkCache files clockReads].
    unfold bind at 1, finally, bind at 1, dateNow at 1.
    cbn [store chunkCache files clockReads].
    unfold bind at 1, run. rewrite Hrefuse. unfold ret.
    eexists. split; [reflexivity|]. cbn [store chunkCache files]. repeat split.
    rewrite createdChunks_app. cbn. now rewrite app_nil_r.
Qed.

End WithServices.

Lemma acceptingStore_accepts : forall s, exists u, Examples.acceptingStore s = Returned u.
Proof. intros s. now exists tt. Qed.

Lemma upload_counts_every_chunk_witness :
  exists (docId : string) (reported : nat) (processingTime timestamp : Z)
         (st' : State) (written : list ChunkNode),
    uploadRoute Examples.twoPages Examples.failingEmbedding Examples.acceptingStore
      Examples.clock (Some Examples.uploadedFile) Examples.uploadState
    = (Returned (Processed "PDF processed and stored successfully" docId reported
                   processingTime timestamp), st') /\
    reported = 1%nat /\
    createdChunks (store st') = written /\
    List.map chunkContent written = [].
Proof.
  destruct (upload_counts_every_chunk Examples.twoPages Examples.failingEmbedding
              Examples.acceptingStore Examples.clock Examples.uploadedFile
              [["A cat is a"; "small pet."]; ["A dog is a loyal pet."]]
              Examples.uploadState acceptingStore_accepts eq_refl)
    as (docId & reported & pt & ts & st' & written & expiry & Hrun & Hcount & Hstore
        & Hwritten & _).
  exists docId, reported, pt, ts, st', written. repeat split; assumption.
Defined.

Lemma upload_stores_whole_text_witness :
  exists (response : UploadResponse) (st' : State) (written : list ChunkNode),
    uploadRoute Examples.twoPages Examples.embeddingService Examples.acceptingStore
      Examples.clock (Some Examples.uploadedFile) Examples.uploadState
    = (Returned response, st') /\
    createdChunks (store st') = written /\
    String.concat EmptyString (List.map chunkContent written)
    = pagesText [["A cat is a"; "small pet."]; ["A dog is a loyal pet."]] /\
    path Examples.uploadedFile ∉ files st'.
Proof.
  destruct (upload_stores_whole_text Examples.twoPages Examples.embeddingService
              Examples.acceptingStore Examples.clock Examples.uploadedFile
              [["A cat is a"; "small pet."]; ["A dog is a loyal pet."]]
              Examples.uploadState acceptingStore_accepts
              ServerFacts.embeddingService_answers eq_refl)
    as (response & st' & written & Hrun & Hstore & Hcat & _ & _ & Hfile).
  exists response, st', written. repeat split; assumption.
Defined.

Lemma upload_failure_keeps_file_witness :
  exists st' : State,
    uploadRoute Examples.unreadable Examples.embeddingService Examples.acceptingStore
      Examples.clock (Some Examples.uploadedFile) Examples.uploadState
    = (Returned (Failed "Failed to process PDF" "Invalid PDF structure"), st') /\
    files st' = files Examples.uploadState.
Proof.
  destruct (upload_failure_keeps_file Examples.unreadable Examples.embeddingService
              Examples.acceptingStore Examples.clock Examples.uploadedFile
              "Invalid PDF structure" Examples.uploadState (or_introl eq_refl))
    as (st' & Hrun & Hfiles & _).
  exists st'. auto.
Defined.

End UploadSpec.